(** * useSafeSearchParams: URL search parameters as validated state

    A shallow embedding of [src/hooks/useSafeSearchParams.tsx] and of the
    schema of [src/app/page.tsx], together with models of the platform
    pieces the hook calls into:

    - ECMAScript values, [Number(...)], [JSON.stringify], [Object.fromEntries],
      property reads and [for ... in] over plain objects; [JSON.parse],
      which the hook does not call, says what the JSON text of a value is;
    - the WHATWG [URLSearchParams] list with [set] and [toString];
    - the fragment of zod 3 the repository uses: [z.coerce.number()],
      [.min], [.max], [z.any()], [.transform], [.or] and [z.object], and
      the string schema [z.string()] with its coercing form.

    Conventions.  A JavaScript string is a [string] holding the UTF-8 bytes
    of well-formed text.  A JavaScript number is a canonical binary64 value
    ([spec_float] at precision 53, [emax] 1024).  A plain object is the list
    of its own enumerable properties in enumeration order, keys distinct. *)

From Stdlib Require Import ZArith NArith String Ascii List Bool Lia DecimalString SpecFloat.
From Stdlib Require Import DecimalN DecimalPos DecimalFacts.
From stdpp Require Import base option list strings.

Open Scope string_scope.
Open Scope list_scope.
Open Scope Z_scope.

(** ** ECMAScript numbers *)

Module Num.

Abbreviation number := spec_float (only parsing).

Definition prec : Z := 53.
Definition emax : Z := 1024.

Definition NaN : number := S754_nan.
Definition Infinity : number := S754_infinity false.
Definition zero : number := S754_zero false.

(** The Number value for the integer [z] (round to nearest, ties to even). *)
Definition of_Z (z : Z) : number := binary_normalize prec emax z 0 false.

Definition isNaN (x : number) : bool :=
  match x with S754_nan => true | _ => false end.

Definition isFinite (x : number) : bool :=
  match x with S754_zero _ | S754_finite _ _ _ => true | _ => false end.

(** The relational operators [<], [<=], [>], [>=]; all are false on NaN. *)
Definition lt (x y : number) : bool := SFltb x y.
Definition le (x y : number) : bool := SFleb x y.
Definition gt (x y : number) : bool := SFltb y x.
Definition ge (x y : number) : bool := SFleb y x.

(** The Number value for the real [m * 10^e], [m >= 0], with sign [neg]. *)
Definition of_decimal (neg : bool) (m : Z) (e : Z) : number :=
  match m with
  | Zpos p =>
      if 0 <=? e then binary_round prec emax neg (p * Z.to_pos (10 ^ e))%positive 0
      else SFdiv prec emax (S754_finite neg p 0)
                           (S754_finite false (Z.to_pos (10 ^ (- e))) 0)
  | _ => S754_zero neg
  end.

(** *** StringToNumber *)

Definition is_digit (c : ascii) : bool :=
  let n := N_of_ascii c in ((48 <=? n) && (n <=? 57))%N.

Definition digit_val (c : ascii) : Z := Z.of_N (N_of_ascii c) - 48.

(** Value of a hexadecimal digit, if [c] is one. *)
Definition hex_val (c : ascii) : option Z :=
  let n := Z.of_N (N_of_ascii c) in
  if (48 <=? n) && (n <=? 57) then Some (n - 48)
  else if (65 <=? n) && (n <=? 70) then Some (n - 55)
  else if (97 <=? n) && (n <=? 102) then Some (n - 87)
  else None.

(** Value of a digit string in the given radix; [None] on an empty string
    or on a character that is not a digit of that radix. *)
Fixpoint radix_digits (radix : Z) (acc : Z) (cs : list ascii) : option Z :=
  match cs with
  | [] => Some acc
  | c :: cs' =>
      match hex_val c with
      | Some d => if d <? radix then radix_digits radix (acc * radix + d) cs' else None
      | None => None
      end
  end.

Definition radix_literal (radix : Z) (cs : list ascii) : option Z :=
  match cs with
  | [] => None
  | _ => radix_digits radix 0 cs
  end.

(** Splits off the longest prefix of decimal digits. *)
Fixpoint span_digits (cs : list ascii) : list ascii * list ascii :=
  match cs with
  | c :: cs' =>
      if is_digit c then let '(ds, rest) := span_digits cs' in (c :: ds, rest)
      else ([], cs)
  | [] => ([], [])
  end.

Definition digits_val (ds : list ascii) : Z :=
  fold_left (fun acc c => acc * 10 + digit_val c) ds 0.

(** Length in bytes of the StrWhiteSpaceChar at the head of [cs], 0 if
    there is none.  The multi-byte cases are the UTF-8 encodings of U+00A0,
    U+1680, U+2000..U+200A, U+2028, U+2029, U+202F, U+205F, U+3000, U+FEFF. *)
Definition ws_prefix (cs : list ascii) : nat :=
  match map N_of_ascii cs with
  | (9 | 10 | 11 | 12 | 13 | 32)%N :: _ => 1
  | 194%N :: 160%N :: _ => 2
  | 225%N :: 154%N :: 128%N :: _ => 3
  | 226%N :: 128%N :: c :: _ =>
      if ((128 <=? c) && (c <=? 138) || (c =? 168) || (c =? 169) || (c =? 175))%N
      then 3 else 0
  | 226%N :: 129%N :: 159%N :: _ => 3
  | 227%N :: 128%N :: 128%N :: _ => 3
  | 239%N :: 187%N :: 191%N :: _ => 3
  | _ => 0
  end%nat.

Fixpoint trim_start (fuel : nat) (cs : list ascii) : list ascii :=
  match fuel with
  | O => cs
  | S fuel' =>
      match ws_prefix cs with
      | O => cs
      | n => trim_start fuel' (drop n cs)
      end
  end.

(** Removes trailing white space: the longest suffix that is a sequence of
    StrWhiteSpaceChar.  [cs] is scanned from the left, remembering in [kept]
    the text up to the last character that is not white space. *)
Fixpoint trim_end_go (fuel : nat) (kept pending cs : list ascii) : list ascii :=
  match fuel with
  | O => kept ++ pending ++ cs
  | S fuel' =>
      match cs with
      | [] => kept
      | c :: cs' =>
          match ws_prefix cs with
          | O => trim_end_go fuel' (kept ++ pending ++ [c]) [] cs'
          | n => trim_end_go fuel' kept (pending ++ take n cs) (drop n cs)
          end
      end
  end.

Definition trim (cs : list ascii) : list ascii :=
  let cs' := trim_start (S (length cs)) cs in
  trim_end_go (S (length cs')) [] [] cs'.

(** ExponentPart, optional: [Some e] for the exponent read (0 when the
    part is absent), [None] when the rest is not an exponent part. *)
Definition exponent_part (cs : list ascii) : option Z :=
  match cs with
  | [] => Some 0
  | c :: cs' =>
      if (N_of_ascii c =? 101)%N || (N_of_ascii c =? 69)%N then
        let '(neg, ds) :=
          match cs' with
          | s :: ds =>
              if (N_of_ascii s =? 43)%N then (false, ds)
              else if (N_of_ascii s =? 45)%N then (true, ds)
              else (false, cs')
          | [] => (false, [])
          end in
        match span_digits ds with
        | ((_ :: _) as es, []) => Some (if neg then - digits_val es else digits_val es)
        | _ => None
        end
      else None
  end.

(** StrUnsignedDecimalLiteral other than [Infinity]: mantissa and decimal
    exponent of its mathematical value. *)
Definition unsigned_decimal (cs : list ascii) : option (Z * Z) :=
  let '(ip, rest) := span_digits cs in
  match rest with
  | c :: rest' =>
      if (N_of_ascii c =? 46)%N then
        let '(fp, rest'') := span_digits rest' in
        match ip, fp with
        | [], [] => None
        | _, _ =>
            match exponent_part rest'' with
            | Some e => Some (digits_val (ip ++ fp), e - Z.of_nat (length fp))
            | None => None
            end
        end
      else
        match ip with
        | [] => None
        | _ =>
            match exponent_part rest with
            | Some e => Some (digits_val ip, e)
            | None => None
            end
        end
  | [] =>
      match ip with
      | [] => None
      | _ => Some (digits_val ip, 0)
      end
  end.

Definition str_decimal (neg : bool) (cs : list ascii) : number :=
  if String.eqb (string_of_list_ascii cs) "Infinity" then S754_infinity neg
  else match unsigned_decimal cs with
       | Some (m, e) => of_decimal neg m e
       | None => NaN
       end.

(** StringToNumber (ECMA-262 7.1.4.1.1). *)
Definition StringToNumber (s : string) : number :=
  match trim (list_ascii_of_string s) with
  | [] => zero
  | c :: cs =>
      let n := N_of_ascii c in
      let prefixed (radix : Z) (ds : list ascii) :=
        match radix_literal radix ds with
        | Some v => of_Z v
        | None => NaN
        end in
      match n, map N_of_ascii (take 1 cs) with
      | 48%N, [(120 | 88)%N] => prefixed 16 (drop 1 cs)
      | 48%N, [(111 | 79)%N] => prefixed 8 (drop 1 cs)
      | 48%N, [(98 | 66)%N] => prefixed 2 (drop 1 cs)
      | 43%N, _ => str_decimal false cs
      | 45%N, _ => str_decimal true cs
      | _, _ => str_decimal false (c :: cs)
      end
  end.

(** *** Number::toString, radix 10 (ECMA-262 6.1.6.1.20) *)

Definition Z_digits (z : Z) : string :=
  NilZero.string_of_uint (N.to_uint (Z.to_N z)).

Fixpoint zeros (n : nat) : string :=
  match n with
  | O => ""
  | S n' => String "0" (zeros n')
  end.

(** The exact value [m * 2^e] as a fraction. *)
Definition frac_of (m : positive) (e : Z) : Z * Z :=
  if 0 <=? e then (Zpos m * 2 ^ e, 1) else (Zpos m, 2 ^ (- e)).

(** The fraction times [10^j]. *)
Definition scale10 (pq : Z * Z) (j : Z) : Z * Z :=
  let '(p, q) := pq in
  if 0 <=? j then (p * 10 ^ j, q) else (p, q * 10 ^ (- j)).

Definition lt_pow10 (pq : Z * Z) (j : Z) : bool :=
  let '(p, q) := scale10 pq (- j) in p <? q.

Fixpoint adjust_up (fuel : nat) (pq : Z * Z) (n : Z) : Z :=
  match fuel with
  | O => n
  | S fuel' => if lt_pow10 pq n then n else adjust_up fuel' pq (n + 1)
  end.

Fixpoint adjust_down (fuel : nat) (pq : Z * Z) (n : Z) : Z :=
  match fuel with
  | O => n
  | S fuel' => if lt_pow10 pq (n - 1) then adjust_down fuel' pq (n - 1) else n
  end.

(** The [n] with [10^(n-1) <= p/q < 10^n], found from a binary estimate. *)
Definition decimal_exponent (pq : Z * Z) : Z :=
  let guess := ((Z.log2 (fst pq) - Z.log2 (snd pq)) * 30103) / 100000 in
  adjust_down 4 pq (adjust_up 4 pq guess).

Definition round_half_even (p q : Z) : Z :=
  let '(d, r) := Z.div_eucl p q in
  match 2 * r ?= q with
  | Lt => d
  | Gt => d + 1
  | Eq => if Z.even d then d else d + 1
  end.

(** Whether the decimal [s * 10^(n-k)] has [k] digits and denotes the
    Number [x]: the condition Number::toString puts on [n], [k] and [s]. *)
Definition denotes (x : number) (s n k : Z) : bool :=
  (10 ^ (k - 1) <=? s) && (s <? 10 ^ k) && SFeqb (of_decimal false s (n - k)) x.

(** The digits [s] and the exponent [n] of the [k]-digit decimal that
    denotes [x], if there is one: of the two [k]-digit decimals next to the
    value, below and above, the one that denotes [x]; when both do, the one
    closest to the value, and the even one when they are equally close. *)
Definition shortest_at (x : number) (pq : Z * Z) (n k : Z) : option (Z * Z) :=
  let '(p, q) := scale10 pq (k - n) in
  let '(d, r) := Z.div_eucl p q in
  let below := (d, n) in
  let above := if d + 1 =? 10 ^ k then (10 ^ (k - 1), n + 1) else (d + 1, n) in
  let ok (c : Z * Z) := denotes x (fst c) (snd c) k in
  if r =? 0 then (if ok below then Some below else None)
  else
    match ok below, ok above with
    | true, true =>
        Some (match 2 * r ?= q with
              | Lt => below
              | Gt => above
              | Eq => if Z.even d then below else above
              end)
    | true, false => Some below
    | false, true => Some above
    | false, false => None
    end.

(** Least [k], from [k] upwards, for which a [k]-digit decimal denotes
    [x]; returns its digits [s], the exponent [n] and [k].  Seventeen
    digits are enough for every Number; when the fuel runs out the nearest
    decimal is returned as it is. *)
Fixpoint shortest (fuel : nat) (x : number) (pq : Z * Z) (n k : Z) : Z * Z * Z :=
  match fuel with
  | O => let '(p, q) := scale10 pq (k - n) in (round_half_even p q, n, k)
  | S fuel' =>
      match shortest_at x pq n k with
      | Some (s, n') => (s, n', k)
      | None => shortest fuel' x pq n (k + 1)
      end
  end.

(** The text for the digits [digits] of a [k]-digit decimal with exponent
    [n]: steps 6 to 10 of Number::toString. *)
Definition decimal_form (digits : string) (n k : Z) : string :=
  let exponent (x : Z) :=
    "e" +:+ (if x <? 0 then "-" else "+") +:+ Z_digits (Z.abs x) in
  if (k <=? n) && (n <=? 21) then digits +:+ zeros (Z.to_nat (n - k))
  else if (0 <? n) && (n <=? 21) then
    substring 0 (Z.to_nat n) digits +:+ "." +:+
    substring (Z.to_nat n) (Z.to_nat (k - n)) digits
  else if (-6 <? n) && (n <=? 0) then "0." +:+ zeros (Z.to_nat (- n)) +:+ digits
  else if k =? 1 then digits +:+ exponent (n - 1)
  else substring 0 1 digits +:+ "." +:+ substring 1 (Z.to_nat (k - 1)) digits
       +:+ exponent (n - 1).

(** The digits, exponent and number of digits Number::toString finds for
    the positive Number [m * 2^e]. *)
Definition shortest_digits (m : positive) (e : Z) : Z * Z * Z :=
  let pq := frac_of m e in
  shortest 17 (S754_finite false m e) pq (decimal_exponent pq) 1.

Definition positive_toString (m : positive) (e : Z) : string :=
  let '(s, n, k) := shortest_digits m e in
  decimal_form (Z_digits s) n k.

Definition toString (x : number) : string :=
  match x with
  | S754_nan => "NaN"
  | S754_zero _ => "0"
  | S754_infinity s => if s then "-Infinity" else "Infinity"
  | S754_finite s m e => (if s then "-" else "") +:+ positive_toString m e
  end.


(** *** Number::add *)

(** The sum of two Numbers (round to nearest, ties to even). *)
Definition add (x y : number) : number := SFadd prec emax x y.



End Num.

(** ** ECMAScript values and plain objects *)

Module JS.

#[warnings="-register-all"]
Inductive value : Type :=
  | VUndefined
  | VNull
  | VBoolean (b : bool)
  | VNumber (n : Num.number)
  | VString (s : string)
  | VArray (elems : list value)
  | VObject (props : list (string * value)).

(** ToString.  An array is joined with commas, [undefined] and [null]
    elements printing as nothing; a plain object prints as
    [[object Object]]. *)
Fixpoint ToString (v : value) : string :=
  match v with
  | VUndefined => "undefined"
  | VNull => "null"
  | VBoolean b => if b then "true" else "false"
  | VNumber n => Num.toString n
  | VString s => s
  | VArray elems =>
      String.concat ","
        (map (fun e => match e with
                       | VUndefined | VNull => ""
                       | _ => ToString e
                       end) elems)
  | VObject _ => "[object Object]"
  end.

(** ToNumber, which is what [Number(v)] computes. *)
Definition ToNumber (v : value) : Num.number :=
  match v with
  | VUndefined => Num.NaN
  | VNull => Num.zero
  | VBoolean b => if b then Num.of_Z 1 else Num.zero
  | VNumber n => n
  | VString s => Num.StringToNumber s
  | VArray _ | VObject _ => Num.StringToNumber (ToString v)
  end.

(** *** JSON.stringify *)

Definition hex_digit (n : N) : ascii :=
  ascii_of_N (if (n <? 10)%N then n + 48 else n + 87)%N.

(** The escape of one byte inside a JSON string literal. *)
Definition quote_byte (c : ascii) : string :=
  let n := N_of_ascii c in
  match n with
  | 8%N => "\b"
  | 9%N => "\t"
  | 10%N => "\n"
  | 12%N => "\f"
  | 13%N => "\r"
  | 34%N => String "\" (String c "")
  | 92%N => "\\"
  | _ =>
      if (n <? 32)%N then
        "\u00" +:+ String (hex_digit (n / 16)) (String (hex_digit (n mod 16)) "")
      else String c ""
  end.

Fixpoint quote_bytes (s : string) : string :=
  match s with
  | EmptyString => ""
  | String c s' => quote_byte c +:+ quote_bytes s'
  end.

Definition dquote : string := String (ascii_of_N 34) "".

Definition QuoteJSONString (s : string) : string :=
  dquote +:+ quote_bytes s +:+ dquote.

(** SerializeJSONProperty without replacer or indentation: [None] is the
    [undefined] that [JSON.stringify(undefined)] returns. *)
Fixpoint SerializeJSONProperty (v : value) : option string :=
  match v with
  | VUndefined => None
  | VNull => Some "null"
  | VBoolean b => Some (if b then "true" else "false")
  | VNumber n => Some (if Num.isFinite n then Num.toString n else "null")
  | VString s => Some (QuoteJSONString s)
  | VArray elems =>
      Some ("[" +:+
            String.concat ","
              (map (fun e => default "null" (SerializeJSONProperty e)) elems)
            +:+ "]")
  | VObject props =>
      Some ("{" +:+
            String.concat ","
              (omap (fun '(k, x) =>
                       (fun t => QuoteJSONString k +:+ ":" +:+ t)
                         <$> SerializeJSONProperty x) props)
            +:+ "}")
  end.

Definition JSON_stringify (v : value) : value :=
  match SerializeJSONProperty v with
  | Some text => VString text
  | None => VUndefined
  end.

(** *** Plain objects *)

Abbreviation object := (list (string * value)) (only parsing).

(** Own property lookup. *)
Fixpoint GetOwnProperty (o : object) (key : string) : option value :=
  match o with
  | [] => None
  | (k, v) :: o' => if String.eqb k key then Some v else GetOwnProperty o' key
  end.

(** The property names every plain object inherits from
    [Object.prototype]. *)
Definition Object_prototype_keys : list string :=
  ["__proto__"; "constructor"; "hasOwnProperty"; "isPrototypeOf";
   "propertyIsEnumerable"; "toLocaleString"; "toString"; "valueOf";
   "__defineGetter__"; "__defineSetter__"; "__lookupGetter__";
   "__lookupSetter__"].

(** The property read [o[key]], for a key that is not inherited: an own
    property, or [undefined]. *)
Definition Get (o : object) (key : string) : value :=
  default VUndefined (GetOwnProperty o key).

(** The test [key in o]. *)
Definition HasProperty (o : object) (key : string) : bool :=
  match GetOwnProperty o key with Some _ => true | None => false end.

(** The assignment [o[key] = v] on a plain object: an existing property
    keeps its place, a new one is added last. *)
Fixpoint CreateDataProperty (o : object) (key : string) (v : value) : object :=
  match o with
  | [] => [(key, v)]
  | (k, x) :: o' =>
      if String.eqb k key then (k, v) :: o'
      else (k, x) :: CreateDataProperty o' key v
  end.

(** [Object.fromEntries] over an iterable of string pairs.  The list is
    in order of creation; the object is only ever read by key. *)
Definition fromEntries (entries : list (string * string)) : object :=
  fold_left (fun o '(k, v) => CreateDataProperty o k (VString v)) entries [].

(** The keys a [for (const key in o)] loop visits. *)
Definition for_in_keys (o : object) : list string := map fst o.


(** *** The addition operator *)

(** ToPrimitive: an array or a plain object becomes its string. *)
Definition ToPrimitive (v : value) : value :=
  match v with
  | VArray _ | VObject _ => VString (ToString v)
  | _ => v
  end.

(** The operator [a + b]: string concatenation when either operand is a
    string once made primitive, the sum of the two numbers otherwise. *)
Definition add (a b : value) : value :=
  let lprim := ToPrimitive a in
  let rprim := ToPrimitive b in
  match lprim, rprim with
  | VString _, _ | _, VString _ => VString (ToString lprim +:+ ToString rprim)
  | _, _ => VNumber (Num.add (ToNumber lprim) (ToNumber rprim))
  end.

(** The property read [v[key]] on a value: a plain object's own property,
    [undefined] on the other values of this model. *)
Definition GetV (v : value) (key : string) : value :=
  match v with
  | VObject o => Get o key
  | _ => VUndefined
  end.


(** *** JSON.parse *)














End JS.

(** ** The URLSearchParams list (WHATWG URL, section 6.2) *)

Module URLSearchParams.

(** The list of name-value tuples of a URLSearchParams object. *)
Abbreviation t := (list (string * string)) (only parsing).

Definition has_name (name : string) (p : string * string) : bool :=
  String.eqb (fst p) name.

Definition remove_name (name : string) (l : t) : t :=
  List.filter (fun p => negb (has_name name p)) l.

(** [set(name, value)]: if the list has tuples named [name], the first
    takes [value] and the others are removed; otherwise a tuple is
    appended. *)
Fixpoint set (l : t) (name value : string) : t :=
  match l with
  | [] => [(name, value)]
  | (k, v) :: l' =>
      if String.eqb k name then (k, value) :: remove_name name l'
      else (k, v) :: set l' name value
  end.

(** [get(name)]: the value of the first tuple named [name]. *)
Fixpoint get (l : t) (name : string) : option string :=
  match l with
  | [] => None
  | (k, v) :: l' => if String.eqb k name then Some v else get l' name
  end.

(** Number of tuples named [name]. *)
Definition count (l : t) (name : string) : nat :=
  length (List.filter (has_name name) l).

(** The application/x-www-form-urlencoded byte serializer. *)
Definition unreserved (n : N) : bool :=
  ((n =? 42) || (n =? 45) || (n =? 46) || (n =? 95)
   || ((48 <=? n) && (n <=? 57))
   || ((65 <=? n) && (n <=? 90))
   || ((97 <=? n) && (n <=? 122)))%N.

Definition upper_hex (n : N) : ascii :=
  ascii_of_N (if (n <? 10)%N then n + 48 else n + 55)%N.

Definition encode_byte (c : ascii) : string :=
  let n := N_of_ascii c in
  if (n =? 32)%N then "+"
  else if unreserved n then String c ""
  else String "%" (String (upper_hex (n / 16)) (String (upper_hex (n mod 16)) "")).

Fixpoint percent_encode (s : string) : string :=
  match s with
  | EmptyString => ""
  | String c s' => encode_byte c +:+ percent_encode s'
  end.

Definition serialize_tuple (p : string * string) : string :=
  percent_encode (fst p) +:+ "=" +:+ percent_encode (snd p).

(** [toString()]: the tuples joined with [&]. *)
Definition toString (l : t) : string :=
  String.concat "&" (map serialize_tuple l).


(** *** The application/x-www-form-urlencoded parser

    What the host runs on the query of the URL it navigates to, and what
    [new URLSearchParams(string)] runs. *)

(** The pieces of [s] between occurrences of [sep]. *)
Fixpoint split (sep : ascii) (s : string) : list string :=
  match s with
  | EmptyString => [EmptyString]
  | String c s' =>
      if Ascii.eqb c sep then EmptyString :: split sep s'
      else
        match split sep s' with
        | x :: xs => String c x :: xs
        | [] => [String c EmptyString]
        end
  end.

(** [s] up to its first [sep], and what follows that [sep] if there is
    one. *)
Fixpoint break_at (sep : ascii) (s : string) : string * option string :=
  match s with
  | EmptyString => (EmptyString, None)
  | String c s' =>
      if Ascii.eqb c sep then (EmptyString, Some s')
      else let '(before, after) := break_at sep s' in (String c before, after)
  end.

Fixpoint plus_to_space (s : string) : string :=
  match s with
  | EmptyString => EmptyString
  | String c s' =>
      String (if (N_of_ascii c =? 43)%N then ascii_of_N 32 else c)
             (plus_to_space s')
  end.

(** Percent-decoding: a percent sign followed by two hexadecimal digits
    is the byte they denote; every other byte is itself. *)
Fixpoint percent_decode (s : string) : string :=
  match s with
  | EmptyString => EmptyString
  | String c s' =>
      if (N_of_ascii c =? 37)%N then
        match s' with
        | String h (String l rest) =>
            match Num.hex_val h, Num.hex_val l with
            | Some a, Some b =>
                String (ascii_of_N (Z.to_N (16 * a + b))) (percent_decode rest)
            | _, _ => String c (percent_decode s')
            end
        | _ => String c (percent_decode s')
        end
      else String c (percent_decode s')
  end.

(** The tuple a non-empty sequence denotes. *)
Definition parse_tuple (bytes : string) : string * string :=
  let '(name, value) := break_at (ascii_of_N 61) bytes in
  (percent_decode (plus_to_space name),
   percent_decode (plus_to_space (default EmptyString value))).

(** The parser: the sequences between ampersands, the empty ones
    skipped, each read as a tuple. *)
Definition parse (input : string) : t :=
  map parse_tuple
      (List.filter (fun bytes => negb (String.eqb bytes EmptyString))
                   (split (ascii_of_N 38) input)).

End URLSearchParams.

(** ** The zod fragment *)

Module Zod.
Import JS.

(** The issue codes this fragment raises. *)
Inductive ZodIssueCode := invalid_type | too_small | too_big | invalid_union.

(** An issue: its code, the path of the datum it is about, and for
    [invalid_union] the issues of each option that failed. *)
#[warnings="-register-all"]
Inductive ZodIssue : Type :=
  | Issue (code : ZodIssueCode) (path : list string)
          (unionErrors : list (list ZodIssue)).

Definition issue_code (i : ZodIssue) : ZodIssueCode :=
  match i with Issue c _ _ => c end.

Definition issue_path (i : ZodIssue) : list string :=
  match i with Issue _ p _ => p end.

(** What [_parse] hands back: [INVALID] is the aborted status, [DIRTY] a
    value that failed some check, [OK] a valid value. *)
Inductive ParseReturn := INVALID | DIRTY (v : value) | OK (v : value).

Definition isValid (r : ParseReturn) : bool :=
  match r with OK _ => true | _ => false end.

Definition isDirty (r : ParseReturn) : bool :=
  match r with DIRTY _ => true | _ => false end.

(** A check of a number schema: [.min(v)] is [CheckMin v true]. *)
Inductive ZodNumberCheck :=
  | CheckMin (value : Num.number) (inclusive : bool)
  | CheckMax (value : Num.number) (inclusive : bool).

(** What defines a number schema: whether it coerces its input with
    [Number], and its checks in the order they were added. *)
Record ZodNumberDef := { coerce : bool; checks : list ZodNumberCheck }.

(** The schemas a field can have.  [ZodEffects] is a schema followed by a
    transform, [ZodUnion] what [.or] builds. *)
Inductive ZodType : Type :=
  | ZodNumber (def : ZodNumberDef)
  | ZodString (coerce : bool)
  | ZodAny
  | ZodEffects (schema : ZodType) (transform : value -> value)
  | ZodUnion (option1 option2 : ZodType).

(** An object schema; its shape lists the fields in key order. *)
Record ZodObject := { shape : list (string * ZodType) }.

(** The builders the repository calls. *)
Definition number : ZodNumberDef := {| coerce := false; checks := [] |}.
Definition coerce_number : ZodNumberDef := {| coerce := true; checks := [] |}.

Definition addCheck (d : ZodNumberDef) (c : ZodNumberCheck) : ZodNumberDef :=
  {| coerce := coerce d; checks := checks d ++ [c] |}.

Definition min (d : ZodNumberDef) (v : Num.number) : ZodNumberDef :=
  addCheck d (CheckMin v true).

Definition max (d : ZodNumberDef) (v : Num.number) : ZodNumberDef :=
  addCheck d (CheckMax v true).

Definition any : ZodType := ZodAny.

Definition transform (t : ZodType) (f : value -> value) : ZodType :=
  ZodEffects t f.

Definition or (t option : ZodType) : ZodType := ZodUnion t option.

Definition object (fields : list (string * ZodType)) : ZodObject :=
  {| shape := fields |}.

(** [z.string()] and [z.coerce.string()]. *)
Definition string_ : ZodType := ZodString false.
Definition coerce_string : ZodType := ZodString true.

(** The issue a check raises on [n], if it fails. *)
Definition check_issue (path : list string) (n : Num.number) (c : ZodNumberCheck)
  : option ZodIssue :=
  match c with
  | CheckMin v inclusive =>
      let tooSmall := if inclusive then Num.lt n v else Num.le n v in
      if tooSmall then Some (Issue too_small path []) else None
  | CheckMax v inclusive =>
      let tooBig := if inclusive then Num.gt n v else Num.ge n v in
      if tooBig then Some (Issue too_big path []) else None
  end.

(** [ZodNumber._parse]. *)
Definition parse_number (d : ZodNumberDef) (path : list string) (data : value)
  : ParseReturn * list ZodIssue :=
  let data := if coerce d then VNumber (ToNumber data) else data in
  match data with
  | VNumber n =>
      if Num.isNaN n then (INVALID, [Issue invalid_type path []])
      else
        match omap (check_issue path n) (checks d) with
        | [] => (OK (VNumber n), [])
        | issues => (DIRTY (VNumber n), issues)
        end
  | _ => (INVALID, [Issue invalid_type path []])
  end.

(** [ZodString._parse], for a string schema without checks. *)
Definition parse_string (coerce : bool) (path : list string) (data : value)
  : ParseReturn * list ZodIssue :=
  let data := if coerce then VString (ToString data) else data in
  match data with
  | VString s => (OK (VString s), [])
  | _ => (INVALID, [Issue invalid_type path []])
  end.

(** [_parse] of a field schema: the result and the issues it adds to the
    parse context. *)
Fixpoint _parse (t : ZodType) (path : list string) (data : value)
  : ParseReturn * list ZodIssue :=
  match t with
  | ZodNumber d => parse_number d path data
  | ZodString coerce => parse_string coerce path data
  | ZodAny => (OK data, [])
  | ZodEffects schema transform =>
      match _parse schema path data with
      | (OK v, issues) => (OK (transform v), issues)
      | base => base
      end
  | ZodUnion option1 option2 =>
      let '(r1, issues1) := _parse option1 path data in
      if isValid r1 then (r1, [])
      else
        let '(r2, issues2) := _parse option2 path data in
        if isValid r2 then (r2, [])
        else if isDirty r1 then (r1, issues1)
        else if isDirty r2 then (r2, issues2)
        else
          (INVALID,
           [Issue invalid_union path
                  (List.filter (fun l => negb (Nat.eqb (length l) 0))
                               [issues1; issues2])])
  end.

(** One entry of the pairs [ZodObject._parse] collects. *)
Record ObjectPair := { key : string; result : ParseReturn; alwaysSet : bool }.

Definition is_undefined (v : value) : bool :=
  match v with VUndefined => true | _ => false end.

(** [ParseStatus.mergeObjectSync]. *)
Fixpoint mergeObjectSync (dirty : bool) (finalObject : JS.object)
    (pairs : list ObjectPair) : ParseReturn :=
  match pairs with
  | [] => if dirty then DIRTY (VObject finalObject) else OK (VObject finalObject)
  | p :: pairs' =>
      match result p with
      | INVALID => INVALID
      | DIRTY v | OK v =>
          mergeObjectSync
            (dirty || isDirty (result p))
            (if negb (String.eqb (key p) "__proto__")
                && (negb (is_undefined v) || alwaysSet p)
             then CreateDataProperty finalObject (key p) v
             else finalObject)
            pairs'
      end
  end.

(** The pair [ZodObject._parse] builds for one key of the shape: the key
    is read from the data, parsed under the path extended with the key,
    and [alwaysSet] records whether the data has the key. *)
Definition parse_field (o : JS.object) (path : list string)
    (field : string * ZodType) : ObjectPair * list ZodIssue :=
  let '(r, issues) := _parse (snd field) (path ++ [fst field]) (Get o (fst field)) in
  ({| key := fst field; result := r; alwaysSet := HasProperty o (fst field) |},
   issues).

(** [ZodObject._parse] with the default handling of unknown keys (they
    are stripped): every key of the shape is parsed, then the pairs are
    merged. *)
Definition parse_object (schema : ZodObject) (path : list string) (data : value)
  : ParseReturn * list ZodIssue :=
  match data with
  | VObject o =>
      let parsed := map (parse_field o path) (shape schema) in
      (mergeObjectSync false [] (map fst parsed), flat_map snd parsed)
  | _ => (INVALID, [Issue invalid_type path []])
  end.

(** The error [parse] throws. *)
Inductive ZodError := mkZodError (issues : list ZodIssue).

Definition issues_of (e : ZodError) : list ZodIssue :=
  match e with mkZodError l => l end.

(** The outcome of a call that may throw. *)
Inductive completion (A : Type) : Type :=
  | Return (a : A)
  | Throw (e : ZodError).
Arguments Return {A} a.
Arguments Throw {A} e.

(** [schema.parse(data)]: the parsed value, or a thrown [ZodError] holding
    the issues. *)
Definition parse (schema : ZodObject) (data : value) : completion value :=
  match parse_object schema [] data with
  | (OK v, _) => Return v
  | (_, issues) => Throw (mkZodError issues)
  end.

End Zod.

(** ** The host environment

    The hook reads the current pathname and the current search parameters
    from Next.js.  The search parameters are an object that the hook holds
    by reference, so the model keeps a store: the object the host owns,
    and the URLSearchParams objects allocated since. *)

Module Host.
Import Zod.

(** A reference to a URLSearchParams object: the one the host owns and
    [useSearchParams()] returns, or the [n]-th object allocated. *)
Inductive ref := HostSearchParams | Allocated (n : nat).

(** The store. *)
Record world := {
  current_pathname : string;
  current_searchParams : URLSearchParams.t;
  objects : list URLSearchParams.t
}.

(** Computations that read and update the store and may throw. *)
Definition M (A : Type) : Type := world -> completion A * world.

#[export] Instance M_ret : MRet M := fun A a w => (Return a, w).

#[export] Instance M_bind : MBind M := fun A B f m w =>
  match m w with
  | (Return a, w') => f a w'
  | (Throw e, w') => (Throw e, w')
  end.

(** A completed call becomes a computation: a thrown error propagates. *)
Definition lift {A} (c : completion A) : M A := fun w => (c, w).

(** A loop over the elements of [l], in order. *)
Fixpoint for_each {A} (l : list A) (body : A -> M unit) : M unit :=
  match l with
  | [] => mret tt
  | x :: l' => body x ≫= fun _ => for_each l' body
  end.

(** The tuples of the object [r] refers to. *)
Definition read (r : ref) (w : world) : URLSearchParams.t :=
  match r with
  | HostSearchParams => current_searchParams w
  | Allocated n => default [] (objects w !! n)
  end.

(** The store in which the object [r] refers to holds the tuples [l]. *)
Definition write (r : ref) (l : URLSearchParams.t) (w : world) : world :=
  match r with
  | HostSearchParams =>
      {| current_pathname := current_pathname w;
         current_searchParams := l;
         objects := objects w |}
  | Allocated n =>
      {| current_pathname := current_pathname w;
         current_searchParams := current_searchParams w;
         objects := <[n := l]> (objects w) |}
  end.

(** [usePathname()] and [useSearchParams()]. *)
Definition usePathname : M string := fun w => (Return (current_pathname w), w).
Definition useSearchParams : M ref := fun w => (Return HostSearchParams, w).

(** Iterating a URLSearchParams object yields its tuples in order. *)
Definition URLSearchParams_entries (r : ref) : M (list (string * string)) :=
  fun w => (Return (read r w), w).

(** [new URLSearchParams(init)] for an iterable [init]: a new object
    holding a copy of the tuples. *)
Definition new_URLSearchParams (init : ref) : M ref := fun w =>
  (Return (Allocated (length (objects w))),
   {| current_pathname := current_pathname w;
      current_searchParams := current_searchParams w;
      objects := objects w ++ [read init w] |}).

(** [r.set(name, value)] and [r.toString()]. *)
Definition URLSearchParams_set (r : ref) (name value : string) : M unit :=
  fun w => (Return tt, write r (URLSearchParams.set (read r w) name value) w).

Definition URLSearchParams_toString (r : ref) : M string :=
  fun w => (Return (URLSearchParams.toString (read r w)), w).

End Host.

(** ** The hook, [src/hooks/useSafeSearchParams.tsx] *)

Module Hook.
Import JS Zod Host.

(** The body of the [useMemo] call (lines 25-27). *)
Definition safeSearchParams (schema : ZodObject) (searchParams : ref) : M value :=
  entries ← URLSearchParams_entries searchParams;
  lift (parse schema (VObject (fromEntries entries))).

(** The body of the [useCallback] call (lines 29-40).  The value handed
    to [set] is converted to a string, so the [undefined] that
    [JSON.stringify] returns for [undefined] is written as that word. *)
Definition createSafeURL (pathname : string) (searchParams : ref)
    (newParams : JS.object) : M string :=
  updatedParams ← new_URLSearchParams searchParams;
  for_each (for_in_keys newParams) (fun key =>
    URLSearchParams_set updatedParams key
      (ToString (JSON_stringify (Get newParams key)))) ≫= fun _ =>
  query ← URLSearchParams_toString updatedParams;
  mret (pathname +:+ "?" +:+ query).

(** The hook.  [useMemo] and [useCallback] only cache: the hook returns
    what the two bodies compute from the current pathname and search
    parameters. *)
Definition useSafeSearchParams (schema : ZodObject)
  : M (value * (JS.object -> M string)) :=
  pathname ← usePathname;
  searchParams ← useSearchParams;
  safe ← safeSearchParams schema searchParams;
  mret (safe, createSafeURL pathname searchParams).

End Hook.

(** ** The page, [src/app/page.tsx] *)

Module Page.
Import JS Zod.

(** [fallback] (lines 9-11): a schema that accepts anything and produces
    [value]. *)
Definition fallback (value : JS.value) : ZodType :=
  transform any (fun _ => value).

(** [searchParamsSchema] (lines 13-15): [count] is a coerced number, at
    least 0, with the fallback 0. *)
Definition searchParamsSchema : ZodObject :=
  object [("count",
           or (ZodNumber (min coerce_number (Num.of_Z 0)))
              (fallback (VNumber (Num.of_Z 0))))].


(** *** The component [Home] (lines 17-43) *)

Import Host Hook.

(** The object literal [{ count: count + 1 }]. *)
Definition incremented (count : JS.value) : JS.object :=
  [("count", JS.add count (VNumber (Num.of_Z 1)))].

(** What a render of [Home] puts on the page: the count it shows, the
    handler of the button and the target of the link. *)
Record rendered := {
  shown_count : JS.value;
  onClick : M unit;
  href : string
}.

Section Home.

(** [useRouter().replace], which the host provides. *)
Variable router_replace : string -> M unit.

(** [incrementCount] (lines 21-24). *)
Definition incrementCount (count : JS.value)
    (createSafeURL : JS.object -> M string) : M unit :=
  url ← createSafeURL (incremented count);
  router_replace url.

(** A render of [Home]: the hook is called with the page's schema,
    [count] is read off the state, and the link target is computed while
    the elements are built. *)
Definition Home : M rendered :=
  hook ← useSafeSearchParams searchParamsSchema;
  let count := GetV (fst hook) "count" in
  let createSafeURL := snd hook in
  target ← createSafeURL (incremented count);
  mret {| shown_count := count;
          onClick := incrementCount count createSafeURL;
          href := target |}.

End Home.

End Page.

(** * Specification vocabulary *)

Section Vocabulary.
Import JS URLSearchParams Zod Host Hook Page.

(** The store [w] with [objs] for its allocated objects. *)
Definition with_objects (w : world) (objs : list URLSearchParams.t) : world :=
  {| current_pathname := current_pathname w;
     current_searchParams := current_searchParams w;
     objects := objs |}.

(** A store as the host sets it up for a render: the current pathname and
    query, and no object allocated yet. *)
Definition render_world (pathname : string) (query : URLSearchParams.t) : world :=
  {| current_pathname := pathname; current_searchParams := query; objects := [] |}.

(** The text the loop writes for [key]. *)
Definition written (newParams : JS.object) (key : string) : string :=
  ToString (JSON_stringify (Get newParams key)).

(** The tuples after [set] has been called for each of [keys] in turn,
    with the text [txt] gives for the key. *)
Definition set_all (txt : string -> string) (keys : list string)
    (current : URLSearchParams.t) : URLSearchParams.t :=
  fold_left (fun l k => set l k (txt k)) keys current.

(** The tuples of [updatedParams] when [toString] is called. *)
Definition updatedParams (current : URLSearchParams.t) (newParams : JS.object)
  : URLSearchParams.t :=
  set_all (written newParams) (for_in_keys newParams) current.

(** Whether [k] is one of [keys]. *)
Definition key_in (keys : list string) (k : string) : bool :=
  existsb (String.eqb k) keys.

(** Whether the query has a tuple named [k]. *)
Definition has_key (l : URLSearchParams.t) (k : string) : bool :=
  existsb (has_name k) l.

(** The current tuples with the update applied in place: the first tuple
    of an updated key takes the new text where it stands, later tuples of
    that key are dropped, tuples of other keys stay as they are. *)
Fixpoint in_place (txt : string -> string) (keys : list string)
    (current : URLSearchParams.t) : URLSearchParams.t :=
  match current with
  | [] => []
  | (k, v) :: rest =>
      if key_in keys k then (k, txt k) :: remove_name k (in_place txt keys rest)
      else (k, v) :: in_place txt keys rest
  end.

(** The tuples of the updated keys that the current query lacks, in the
    order of the update. *)
Definition appended (txt : string -> string) (keys : list string)
    (current : URLSearchParams.t) : URLSearchParams.t :=
  map (fun k => (k, txt k))
      (List.filter (fun k => negb (has_key current k)) keys).

(** The tuples whose key the update does not name. *)
Definition untouched (keys : list string) (l : URLSearchParams.t)
  : URLSearchParams.t :=
  List.filter (fun p => negb (key_in keys (fst p))) l.

(** The second half of C6 as the specification words it: when the merged
    query is empty, the result ends in a bare question mark only if the
    current query was not empty. *)
Definition empty_suffix_only_if_nonempty_before
    (pathname : string) (newParams : JS.object) (w : world) : Prop :=
  updatedParams (current_searchParams w) newParams = [] ->
  fst (createSafeURL pathname HostSearchParams newParams w)
  = Return (pathname +:+ "?") ->
  current_searchParams w <> [].

(** The value of the final tuple named [k], if there is one. *)
Fixpoint last_occurrence (entries : list (string * string)) (k : string)
  : option string :=
  match entries with
  | [] => None
  | (k0, v) :: rest =>
      match last_occurrence rest k with
      | Some v' => Some v'
      | None => if String.eqb k0 k then Some v else None
      end
  end.

(** The raw string the query mapping holds for [k], if it has the key. *)
Definition raw_value (entries : list (string * string)) (k : string)
  : option string :=
  match GetOwnProperty (fromEntries entries) k with
  | Some (VString s) => Some s
  | _ => None
  end.

(** A shape as a schema declares it: distinct keys, none of them a name
    that plain objects inherit. *)
Definition shape_ok (fields : list (string * ZodType)) : Prop :=
  List.NoDup (map fst fields)
  /\ forall k, In k (map fst fields) -> ~ In k Object_prototype_keys.

(** Whether [n] is within the limit of a check. *)
Definition within (n : Num.number) (c : ZodNumberCheck) : bool :=
  match c with
  | CheckMin v inclusive => negb (if inclusive then Num.lt n v else Num.le n v)
  | CheckMax v inclusive => negb (if inclusive then Num.gt n v else Num.ge n v)
  end.

(** The values a number schema lets through: numbers other than NaN that
    are within every limit. *)
Definition number_ok (d : ZodNumberDef) (n : Num.number) : bool :=
  negb (Num.isNaN n) && forallb (within n) (checks d).

(** The constraints a schema puts on what it produces. *)
Fixpoint satisfies (t : ZodType) (v : value) : Prop :=
  match t with
  | ZodNumber d => exists n, v = VNumber n /\ number_ok d n = true
  | ZodString _ => exists s, v = VString s
  | ZodAny => True
  | ZodEffects schema transform => exists x, satisfies schema x /\ v = transform x
  | ZodUnion option1 option2 => satisfies option1 v \/ satisfies option2 v
  end.

(** The property read [state[k]] on a parsed state. *)
Definition field (state : value) (k : string) : value :=
  match state with
  | VObject o => Get o k
  | _ => VUndefined
  end.

(** The number a number schema produces from [data], if it lets it
    through. *)
Definition accepted (d : ZodNumberDef) (data : value) : option Num.number :=
  match (if coerce d then VNumber (ToNumber data) else data) with
  | VNumber n => if number_ok d n then Some n else None
  | _ => None
  end.

(** A schema that does not let an absent datum through. *)
Definition rejects_undefined (t : ZodType) : Prop :=
  forall path, isValid (fst (_parse t path VUndefined)) = false.

(** What one pair does to the object under construction. *)
Definition assign (o : JS.object) (p : ObjectPair) : JS.object :=
  match result p with
  | INVALID => o
  | DIRTY v | OK v =>
      if negb (String.eqb (key p) "__proto__")
         && (negb (is_undefined v) || alwaysSet p)
      then CreateDataProperty o (key p) v
      else o
  end.

(** The datum the object schema reads for a key: the raw string, or
    [undefined] when the query mapping lacks the key. *)
Definition datum (raw : option string) : value :=
  match raw with
  | Some s => VString s
  | None => VUndefined
  end.

(** Accept or fall back: when the raw value is present and passes the
    schema, what the schema produces from it; the fallback otherwise. *)
Definition accept_or_fallback (inner : ZodType) (fb : value) (k : string)
    (raw : option string) : value :=
  match raw with
  | Some s =>
      match fst (_parse inner [k] (VString s)) with
      | OK v => v
      | _ => fb
      end
  | None => fb
  end.

(** The number a raw string is coerced to, when the string passes the
    coercion and the constraints of a number field. *)
Definition coerced_value (d : ZodNumberDef) (raw : string) : option Num.number :=
  if coerce d then
    let n := Num.StringToNumber raw in
    if number_ok d n then Some n else None
  else None.

(** The policy of C1 as the specification words it, for every field
    declared with a fallback. *)
Definition accept_or_fallback_as_stated
    (fields : list (string * ZodType)) (w : world) : Prop :=
  forall k inner fb state createURL,
    In (k, or inner (fallback fb)) fields ->
    fst (useSafeSearchParams (object fields) w) = Return (state, createURL) ->
    field state k
    = accept_or_fallback inner fb k (raw_value (current_searchParams w) k).

(** A schema that is not a schema with a fallback. *)
Definition no_fallback (t : ZodType) : Prop :=
  forall inner fb, t <> or inner (fallback fb).

(** C7 as the specification words it, for every field declared without a
    fallback: an absent or failing raw value makes the hook throw. *)
Definition throws_when_absent_or_invalid
    (fields : list (string * ZodType)) (w : world) : Prop :=
  forall k t,
    In (k, t) fields ->
    no_fallback t ->
    match raw_value (current_searchParams w) k with
    | Some s => isValid (fst (_parse t [k] (VString s))) = false
    | None => True
    end ->
    exists issues,
      useSafeSearchParams (object fields) w = (Throw (mkZodError issues), w)
      /\ exists i, In i issues /\ issue_path i = [k].


(** Every field of the shape is declared with a fallback. *)
Definition all_fallbacks (fields : list (string * ZodType)) : Prop :=
  forall k t, In (k, t) fields -> exists inner fb, t = or inner (fallback fb).


(** Whether every character of [s] passes the test. *)
Fixpoint string_forallb (test : ascii -> bool) (s : string) : bool :=
  match s with
  | EmptyString => true
  | String c s' => test c && string_forallb test s'
  end.

(** The characters a serialized query is made of: the ones the
    serializer leaves as they are, and [+], [%], [=] and [&]. *)
Definition query_char (c : ascii) : bool :=
  let n := N_of_ascii c in
  (unreserved n || (n =? 43) || (n =? 37) || (n =? 61) || (n =? 38))%N.

(** A character other than [c]. *)
Definition other_than (c : ascii) (x : ascii) : bool := negb (Ascii.eqb x c).

(** The store of the render that follows a navigation to the URL made of
    [pathname], a question mark and [query]. *)
Definition navigated (pathname query : string) : world :=
  render_world pathname (URLSearchParams.parse query).


(** The schema of [count] on the page, without its fallback. *)
Definition count_def : ZodNumberDef := min coerce_number (Num.of_Z 0).

(** The tuples the link of a render that shows [n] points to. *)
Definition incremented_query (current : URLSearchParams.t) (n : Num.number)
  : URLSearchParams.t :=
  URLSearchParams.set current "count"
    (ToString (JSON_stringify (VNumber (Num.add n (Num.of_Z 1))))).

(** Whether two numbers are the same datum. *)
Definition same_number (x y : Num.number) : bool :=
  match x, y with
  | S754_zero a, S754_zero b => Bool.eqb a b
  | S754_infinity a, S754_infinity b => Bool.eqb a b
  | S754_nan, S754_nan => true
  | S754_finite a m e, S754_finite b m' e' =>
      Bool.eqb a b && (m =? m')%positive && (e =? e')
  | _, _ => false
  end.

(** Whether the page counts from [z] to [z + 1]: the decimal text of [z]
    is read as [z], and the text written for the incremented number is the
    decimal text of [z + 1]. *)
Definition counts_from (z : Z) : bool :=
  match coerced_value count_def (Num.Z_digits z) with
  | Some m => same_number m (Num.of_Z z)
  | None => false
  end
  && String.eqb
       (ToString (JSON_stringify (VNumber (Num.add (Num.of_Z z) (Num.of_Z 1)))))
       (Num.Z_digits (z + 1)).
















End Vocabulary.

(** * Verification *)

(** ** What a call of [createSafeURL] does to the store *)

Section Store.
Import JS Zod Host Hook.

Lemma read_fresh w (objs : list URLSearchParams.t) l :
  read (Allocated (length objs)) (with_objects w (objs ++ [l])) = l.
Proof.
  unfold read, with_objects; simpl.
  rewrite lookup_app_r by lia. now rewrite Nat.sub_diag.
Qed.

Lemma write_fresh w (objs : list URLSearchParams.t) l l' :
  write (Allocated (length objs)) l' (with_objects w (objs ++ [l]))
  = with_objects w (objs ++ [l']).
Proof.
  unfold write, with_objects; simpl. f_equal.
  rewrite insert_app_r_alt by lia. now rewrite Nat.sub_diag.
Qed.

Lemma loop_run newParams keys w objs l :
  for_each keys (fun key =>
    URLSearchParams_set (Allocated (length objs)) key (written newParams key))
    (with_objects w (objs ++ [l]))
  = (Return tt, with_objects w (objs ++ [set_all (written newParams) keys l])).
Proof.
  revert l. induction keys as [|key keys IH]; intros l; [reflexivity|].
  cbn [for_each]. unfold mbind, M_bind, URLSearchParams_set.
  rewrite read_fresh, write_fresh. apply IH.
Qed.

(** A call returns the pathname, a question mark and the serialized
    tuples of the object it allocated, and leaves that object in the
    store after the objects that were there. *)
Lemma createSafeURL_run pathname searchParams newParams w :
  createSafeURL pathname searchParams newParams w
  = (Return (pathname +:+ "?" +:+
             URLSearchParams.toString
               (updatedParams (read searchParams w) newParams)),
     with_objects w
       (objects w ++ [updatedParams (read searchParams w) newParams])).
Proof.
  unfold createSafeURL, mbind, M_bind, new_URLSearchParams.
  fold (with_objects w (objects w ++ [read searchParams w])).
  fold (written newParams).
  change (fun key : string =>
            URLSearchParams_set (Allocated (length (objects w))) key
              (ToString (JSON_stringify (Get newParams key))))
    with (fun key : string =>
            URLSearchParams_set (Allocated (length (objects w))) key
              (written newParams key)).
  rewrite loop_run. unfold URLSearchParams_toString, mret, M_ret.
  now rewrite read_fresh.
Qed.

End Store.

(** ** Facts about [URLSearchParams.set] *)

Ltac eqb_cases :=
  repeat match goal with
    | |- context [String.eqb ?a ?b] =>
        destruct (String.eqb_spec a b); subst; simpl in *; try congruence
    end.

Section SetFacts.
Import URLSearchParams.

Lemma remove_name_idem k l : remove_name k (remove_name k l) = remove_name k l.
Proof.
  unfold remove_name, has_name.
  induction l as [|[k0 v0] l IH]; simpl; [reflexivity|].
  eqb_cases; try now rewrite IH.
Qed.

Lemma remove_name_comm k k' l :
  remove_name k (remove_name k' l) = remove_name k' (remove_name k l).
Proof.
  unfold remove_name, has_name.
  induction l as [|[k0 v0] l IH]; simpl; [reflexivity|].
  eqb_cases; try now rewrite IH.
Qed.

Lemma remove_name_app k l1 l2 :
  remove_name k (l1 ++ l2) = remove_name k l1 ++ remove_name k l2.
Proof. apply List.filter_app. Qed.

Lemma count_remove_name_same k l : count (remove_name k l) k = 0%nat.
Proof.
  unfold count, remove_name, has_name.
  induction l as [|[k0 v0] l IH]; simpl; [reflexivity|].
  eqb_cases.
Qed.

Lemma count_remove_name_other k k' l :
  k <> k' -> count (remove_name k' l) k = count l k.
Proof.
  intros Hne. unfold count, remove_name, has_name.
  induction l as [|[k0 v0] l IH]; simpl; [reflexivity|].
  eqb_cases; try now rewrite IH.
Qed.

Lemma count_set_same l k v : count (set l k v) k = 1%nat.
Proof.
  induction l as [|[k0 v0] l IH]; simpl.
  - unfold count, has_name; simpl. eqb_cases.
  - destruct (String.eqb_spec k0 k); subst.
    + pose proof (count_remove_name_same k l) as H.
      unfold count, has_name in *; simpl. eqb_cases; try now rewrite H.
    + unfold count, has_name in *; simpl. eqb_cases.
Qed.

Lemma count_set_other l k k' v : k <> k' -> count (set l k' v) k = count l k.
Proof.
  intros Hne. induction l as [|[k0 v0] l IH]; simpl.
  - unfold count, has_name; simpl. eqb_cases.
  - destruct (String.eqb_spec k0 k'); subst.
    + pose proof (count_remove_name_other k k' l Hne) as H.
      unfold count, has_name in *; simpl. eqb_cases.
    + unfold count, has_name in *; simpl. eqb_cases; try now rewrite IH.
Qed.

Lemma get_set_same l k v : get (set l k v) k = Some v.
Proof.
  induction l as [|[k0 v0] l IH]; simpl; eqb_cases.
Qed.

Lemma get_remove_name_other k k' l :
  k <> k' -> get (remove_name k' l) k = get l k.
Proof.
  intros Hne. unfold remove_name, has_name.
  induction l as [|[k0 v0] l IH]; simpl; [reflexivity|].
  eqb_cases.
Qed.

Lemma get_set_other l k k' v : k <> k' -> get (set l k' v) k = get l k.
Proof.
  intros Hne. induction l as [|[k0 v0] l IH]; simpl.
  - eqb_cases.
  - destruct (String.eqb_spec k0 k'); subst; simpl.
    + eqb_cases; try now apply get_remove_name_other.
    + eqb_cases.
Qed.

End SetFacts.

(** ** The merged query in closed form *)

Section ClosedForm.
Import URLSearchParams.

(** The text written for each key. *)
Variable txt : string -> string.

Lemma set_absent l k v : has_key l k = false -> set l k v = l ++ [(k, v)].
Proof.
  unfold has_key, has_name.
  induction l as [|[k0 v0] l IH]; simpl; [reflexivity|].
  destruct (String.eqb_spec k0 k); simpl; [discriminate|].
  intros H. now rewrite IH.
Qed.

Lemma has_key_remove_name l k k' :
  has_key (remove_name k l) k' = has_key l k' && negb (String.eqb k k').
Proof.
  unfold has_key, remove_name, has_name.
  induction l as [|[k0 v0] l IH]; simpl; [reflexivity|].
  destruct (String.eqb_spec k0 k), (String.eqb_spec k0 k'); subst; simpl;
    rewrite ?IH; eqb_cases; rewrite ?andb_false_r, ?andb_true_r; reflexivity.
Qed.

Lemma has_key_set l k v k' :
  has_key (set l k v) k' = has_key l k' || String.eqb k k'.
Proof.
  induction l as [|[k0 v0] l IH]; simpl.
  - unfold has_key, has_name; simpl. now rewrite orb_false_r.
  - destruct (String.eqb_spec k0 k); subst.
    + pose proof (has_key_remove_name l k k') as H.
      unfold has_key, has_name in *; simpl. rewrite H.
      destruct (String.eqb_spec k k'); simpl; [reflexivity|].
      now rewrite andb_true_r, orb_false_r.
    + unfold has_key, has_name in *; simpl. rewrite IH.
      now rewrite orb_assoc.
Qed.

Lemma in_place_nil l : in_place txt [] l = l.
Proof. induction l as [|[k v] l IH]; simpl; [reflexivity|]. now rewrite IH. Qed.

Lemma in_place_absent k ks l :
  has_key l k = false -> in_place txt (k :: ks) l = in_place txt ks l.
Proof.
  unfold has_key, has_name.
  induction l as [|[k0 v0] l IH]; simpl; [reflexivity|].
  destruct (String.eqb_spec k0 k); simpl; [discriminate|].
  intros H. now rewrite (IH H).
Qed.

Lemma in_place_snoc ks l k v :
  key_in ks k = false -> in_place txt ks (l ++ [(k, v)]) = in_place txt ks l ++ [(k, v)].
Proof.
  intros Hk. induction l as [|[k0 v0] l IH]; simpl.
  - now rewrite Hk.
  - rewrite IH. destruct (key_in ks k0) eqn:E; [|reflexivity].
    rewrite remove_name_app. simpl. unfold has_name; simpl.
    destruct (String.eqb_spec k k0); [subst; congruence|reflexivity].
Qed.

Lemma in_place_remove_name k ks l :
  key_in ks k = false ->
  in_place txt ks (remove_name k l) = remove_name k (in_place txt (k :: ks) l).
Proof.
  intros Hk. induction l as [|[k0 v0] l IH]; simpl; [reflexivity|].
  unfold has_name at 1; simpl.
  destruct (String.eqb_spec k0 k); subst; simpl.
  - unfold has_name at 1; simpl. rewrite String.eqb_refl; simpl.
    now rewrite remove_name_idem.
  - destruct (key_in ks k0) eqn:E; simpl; unfold has_name at 1; simpl;
      rewrite (proj2 (String.eqb_neq k0 k)) by assumption; simpl.
    + now rewrite IH, remove_name_comm.
    + now rewrite IH.
Qed.

Lemma in_place_set k ks l :
  key_in ks k = false -> has_key l k = true ->
  in_place txt ks (set l k (txt k)) = in_place txt (k :: ks) l.
Proof.
  intros Hk. induction l as [|[k0 v0] l IH]; simpl; [discriminate|].
  unfold has_key, has_name; simpl.
  destruct (String.eqb_spec k0 k); subst; simpl.
  - intros _. rewrite Hk. now rewrite in_place_remove_name.
  - intros H. now rewrite (IH H).
Qed.

End ClosedForm.

Section ClosedFormProof.
Import URLSearchParams.
Variable txt : string -> string.

Lemma key_in_spec ks k : key_in ks k = true <-> In k ks.
Proof.
  unfold key_in. rewrite existsb_exists. split.
  - intros (x & Hx & E). apply String.eqb_eq in E. now subst.
  - intros H. exists k. split; [assumption|apply String.eqb_refl].
Qed.

Lemma key_in_false ks k : ~ In k ks -> key_in ks k = false.
Proof.
  intros H. destruct (key_in ks k) eqn:E; [|reflexivity].
  now apply key_in_spec in E.
Qed.

Lemma appended_set_present ks l k v :
  has_key l k = true -> appended txt ks (set l k v) = appended txt ks l.
Proof.
  intros H. unfold appended. f_equal. apply List.filter_ext. intros k'.
  rewrite has_key_set. destruct (String.eqb_spec k k'); subst.
  - now rewrite H.
  - now rewrite orb_false_r.
Qed.

Lemma appended_snoc ks l k v :
  key_in ks k = false -> appended txt ks (l ++ [(k, v)]) = appended txt ks l.
Proof.
  intros Hk. unfold appended. f_equal. apply List.filter_ext_in. intros k' Hin.
  unfold has_key. rewrite existsb_app; simpl. unfold has_name at 2; simpl.
  destruct (String.eqb_spec k k'); subst.
  - apply key_in_spec in Hin. congruence.
  - now rewrite !orb_false_r.
Qed.

(** The loop computes the in-place update followed by the appended keys. *)
Lemma set_all_closed_form keys current :
  List.NoDup keys ->
  set_all txt keys current = in_place txt keys current ++ appended txt keys current.
Proof.
  intros Hnd. revert current.
  induction Hnd as [|k ks Hnotin Hnd IH]; intros current.
  - simpl. rewrite in_place_nil. unfold appended; simpl. now rewrite app_nil_r.
  - change (set_all txt (k :: ks) current)
      with (set_all txt ks (set current k (txt k))).
    rewrite IH.
    pose proof (key_in_false ks k Hnotin) as Hk.
    destruct (has_key current k) eqn:E.
    + rewrite in_place_set by assumption.
      rewrite appended_set_present by assumption.
      unfold appended at 2; simpl. now rewrite E.
    + rewrite set_absent by assumption.
      rewrite in_place_snoc, appended_snoc by assumption.
      rewrite in_place_absent by assumption.
      unfold appended at 2; simpl. rewrite E; simpl.
      now rewrite <- app_assoc.
Qed.

End ClosedFormProof.

Section LoopFacts.
Import URLSearchParams.
Variable txt : string -> string.

Lemma untouched_remove_name keys k l :
  key_in keys k = true -> untouched keys (remove_name k l) = untouched keys l.
Proof.
  intros Hk. unfold untouched, remove_name, has_name.
  induction l as [|[k0 v0] l IH]; simpl; [reflexivity|].
  destruct (String.eqb_spec k0 k); subst; simpl.
  - now rewrite Hk.
  - now rewrite IH.
Qed.

Lemma untouched_set keys k v l :
  key_in keys k = true -> untouched keys (set l k v) = untouched keys l.
Proof.
  intros Hk. induction l as [|[k0 v0] l IH]; simpl.
  - unfold untouched; simpl. now rewrite Hk.
  - destruct (String.eqb_spec k0 k); subst.
    + pose proof (untouched_remove_name keys k l Hk) as H.
      unfold untouched in *; simpl. now rewrite Hk.
    + unfold untouched in *; simpl. now rewrite IH.
Qed.

Lemma untouched_set_all keys ks l :
  (forall k, In k ks -> In k keys) ->
  untouched keys (set_all txt ks l) = untouched keys l.
Proof.
  revert l. induction ks as [|k ks IH]; intros l Hsub; [reflexivity|].
  change (set_all txt (k :: ks) l) with (set_all txt ks (set l k (txt k))).
  rewrite IH by (intros; apply Hsub; now right).
  apply untouched_set. apply key_in_spec. apply Hsub. now left.
Qed.

Lemma count_set_all_other ks l k :
  ~ In k ks -> count (set_all txt ks l) k = count l k.
Proof.
  revert l. induction ks as [|k0 ks IH]; intros l Hk; [reflexivity|].
  change (set_all txt (k0 :: ks) l) with (set_all txt ks (set l k0 (txt k0))).
  rewrite IH by (intros H; apply Hk; now right).
  apply count_set_other. intros ->. apply Hk. now left.
Qed.

Lemma count_set_all ks l k : In k ks -> count (set_all txt ks l) k = 1%nat.
Proof.
  revert l. induction ks as [|k0 ks IH]; intros l Hk; [contradiction|].
  change (set_all txt (k0 :: ks) l) with (set_all txt ks (set l k0 (txt k0))).
  destruct (in_dec string_dec k ks) as [Hin|Hnot]; [now apply IH|].
  destruct Hk as [->|Hin]; [|contradiction].
  rewrite count_set_all_other by assumption. apply count_set_same.
Qed.

Lemma get_set_all_other ks l k :
  ~ In k ks -> get (set_all txt ks l) k = get l k.
Proof.
  revert l. induction ks as [|k0 ks IH]; intros l Hk; [reflexivity|].
  change (set_all txt (k0 :: ks) l) with (set_all txt ks (set l k0 (txt k0))).
  rewrite IH by (intros H; apply Hk; now right).
  apply get_set_other. intros ->. apply Hk. now left.
Qed.

Lemma get_set_all ks l k : In k ks -> get (set_all txt ks l) k = Some (txt k).
Proof.
  revert l. induction ks as [|k0 ks IH]; intros l Hk; [contradiction|].
  change (set_all txt (k0 :: ks) l) with (set_all txt ks (set l k0 (txt k0))).
  destruct (in_dec string_dec k ks) as [Hin|Hnot]; [now apply IH|].
  destruct Hk as [->|Hin]; [|contradiction].
  rewrite get_set_all_other by assumption. apply get_set_same.
Qed.

Lemma set_all_nil_inv ks l : set_all txt ks l = [] -> ks = [] /\ l = [].
Proof.
  destruct ks as [|k ks]; [now split|].
  intros H. exfalso.
  assert (Hc : count (set_all txt (k :: ks) l) k = 1%nat)
    by (apply count_set_all; now left).
  rewrite H in Hc. discriminate.
Qed.

End LoopFacts.

(** ** JSON texts *)

Module JSONText.
Import JS.

(** The characters of a text, the text of an element of an array and the
    text of a member of an object, as [SerializeJSONProperty] has them. *)
Abbreviation chars := list_ascii_of_string (only parsing).

Abbreviation ser :=
  (fun e : value => default "null" (SerializeJSONProperty e)) (only parsing).

Abbreviation member :=
  (fun '(k, x) => (fun t : string => QuoteJSONString k +:+ ":" +:+ t)
                    <$> SerializeJSONProperty x) (only parsing).

(** *** The characters of a text *)


(** *** String literals *)



(** *** Decimal digits *)













(** *** Scanning a number *)








(** *** The text of a number *)












(** *** Sign and equality of Numbers *)









(** *** Values *)








Lemma key_in_app l1 l2 k : key_in (l1 ++ l2) k = key_in l1 k || key_in l2 k.
Proof. unfold key_in. apply existsb_app. Qed.










End JSONText.

(** ** The URL builder *)

Module CreateURL.
Import JS Zod Host Hook.

Lemma own_property_key (o : JS.object) k v :
  GetOwnProperty o k = Some v -> In k (for_in_keys o).
Proof.
  induction o as [|[k0 v0] o IH]; simpl; [discriminate|].
  destruct (String.eqb_spec k0 k); [now left|]. intros H. right. now apply IH.
Qed.

Lemma updatedParams_set_all current newParams :
  updatedParams current newParams
  = set_all (written newParams) (for_in_keys newParams) current.
Proof. reflexivity. Qed.

(** C3: [createSafeURL] leaves the tuples of every key the update does not
    name as they are, in their order; when the update's keys are distinct,
    the new query is the current one updated in place (an updated key that
    was present keeps the position of its first tuple) followed by the
    updated keys that were absent, in the order of the update.  The query
    [hello=world] updated with [{count: 1}] gives [hello=world&count=1]. *)
Theorem createSafeURL_keeps_unrelated_params :
  (forall pathname newParams w,
      List.NoDup (for_in_keys newParams) ->
      exists updated : URLSearchParams.t,
        createSafeURL pathname HostSearchParams newParams w
        = (Return (pathname +:+ "?" +:+ URLSearchParams.toString updated),
           with_objects w (objects w ++ [updated]))
        /\ untouched (for_in_keys newParams) updated
           = untouched (for_in_keys newParams) (current_searchParams w)
        /\ updated
           = in_place (written newParams) (for_in_keys newParams)
               (current_searchParams w)
             ++ appended (written newParams) (for_in_keys newParams)
                  (current_searchParams w))
  /\ fst (createSafeURL "/about" HostSearchParams
            [("count", VNumber (Num.of_Z 1))]
            (render_world "/about" [("hello", "world")]))
     = Return "/about?hello=world&count=1".
Proof.
  split.
  - intros pathname newParams w Hnd.
    exists (updatedParams (current_searchParams w) newParams).
    split; [apply createSafeURL_run|]. split.
    + rewrite updatedParams_set_all. now apply untouched_set_all.
    + rewrite updatedParams_set_all. now apply set_all_closed_form.
  - vm_compute. reflexivity.
Qed.

Lemma createSafeURL_keeps_unrelated_params_witness :
  exists updated : URLSearchParams.t,
    createSafeURL "/about" HostSearchParams
      [("count", VNumber (Num.of_Z 2)); ("page", VString "a")]
      (render_world "/about" [("count", "1"); ("hello", "world"); ("count", "7")])
    = (Return ("/about" +:+ "?" +:+ URLSearchParams.toString updated),
       with_objects
         (render_world "/about" [("count", "1"); ("hello", "world"); ("count", "7")])
         [updated])
    /\ updated
       = [("count", "2"); ("hello", "world"); ("page", dquote +:+ "a" +:+ dquote)].
Proof.
  destruct (proj1 createSafeURL_keeps_unrelated_params "/about"
              [("count", VNumber (Num.of_Z 2)); ("page", VString "a")]
              (render_world "/about" [("count", "1"); ("hello", "world"); ("count", "7")]))
    as (updated & Hrun & _ & Hform).
  - repeat constructor; simpl; intuition discriminate.
  - exists updated. split; [exact Hrun|]. rewrite Hform. vm_compute. reflexivity.
Defined.

(** C4: every key the update names occurs exactly once in the query that
    [createSafeURL] serializes, whatever the current query held for it.
    The query [count=1] updated with [{count: 2}] gives [count=2], once. *)
Theorem createSafeURL_sets_each_key_once :
  (forall pathname newParams w k,
      In k (for_in_keys newParams) ->
      exists updated : URLSearchParams.t,
        createSafeURL pathname HostSearchParams newParams w
        = (Return (pathname +:+ "?" +:+ URLSearchParams.toString updated),
           with_objects w (objects w ++ [updated]))
        /\ URLSearchParams.count updated k = 1%nat)
  /\ createSafeURL "/about" HostSearchParams
       [("count", VNumber (Num.of_Z 2))]
       (render_world "/about" [("count", "1")])
     = (Return "/about?count=2",
        with_objects (render_world "/about" [("count", "1")]) [[("count", "2")]]).
Proof.
  split.
  - intros pathname newParams w k Hk.
    exists (updatedParams (current_searchParams w) newParams).
    split; [apply createSafeURL_run|].
    rewrite updatedParams_set_all. now apply count_set_all.
  - vm_compute. reflexivity.
Qed.

Lemma createSafeURL_sets_each_key_once_witness :
  exists updated : URLSearchParams.t,
    createSafeURL "/list" HostSearchParams
      [("count", VNumber (Num.of_Z 2))]
      (render_world "/list" [("count", "1"); ("tab", "a"); ("count", "9")])
    = (Return ("/list" +:+ "?" +:+ URLSearchParams.toString updated),
       with_objects
         (render_world "/list" [("count", "1"); ("tab", "a"); ("count", "9")])
         [updated])
    /\ URLSearchParams.count updated "count" = 1%nat.
Proof.
  apply (proj1 createSafeURL_sets_each_key_once "/list"
           [("count", VNumber (Num.of_Z 2))]
           (render_world "/list" [("count", "1"); ("tab", "a"); ("count", "9")])
           "count").
  simpl. now left.
Defined.




(** With no current query and an empty update the merged query is empty
    and the result is the pathname followed by a question mark, although
    the query was empty before the call. *)
Lemma createSafeURL_empty_query_counterexample :
  ~ empty_suffix_only_if_nonempty_before "/about" [] (render_world "/about" []).
Proof.
  intros H. now apply H.
Qed.

(** C6, amended: [createSafeURL] returns the pathname, a question mark and
    the serialized query.  The merged query is empty exactly when the
    current query and the update are both empty, and the result is then
    the pathname followed by the question mark alone. *)
Theorem createSafeURL_always_emits_question_mark pathname newParams w :
  exists updated : URLSearchParams.t,
    createSafeURL pathname HostSearchParams newParams w
    = (Return (pathname +:+ "?" +:+ URLSearchParams.toString updated),
       with_objects w (objects w ++ [updated]))
    /\ (updated = [] <-> current_searchParams w = [] /\ newParams = [])
    /\ (updated = [] ->
        fst (createSafeURL pathname HostSearchParams newParams w)
        = Return (pathname +:+ "?")).
Proof.
  exists (updatedParams (current_searchParams w) newParams).
  split; [apply createSafeURL_run|]. split.
  - split.
    + intros H. rewrite updatedParams_set_all in H.
      apply set_all_nil_inv in H as [Hk Hc]. split; [exact Hc|].
      destruct newParams; [reflexivity|discriminate].
    + intros [-> ->]. reflexivity.
  - intros H. rewrite createSafeURL_run; simpl. rewrite H. reflexivity.
Qed.

(** C8: the string [createSafeURL] returns is a function of the pathname,
    the current query and the update alone: in two stores with the same
    current query the same call returns the same string, and so does a
    second call made after the first one. *)
Theorem createSafeURL_deterministic pathname newParams w1 w2 :
  current_searchParams w1 = current_searchParams w2 ->
  exists url : string,
    fst (createSafeURL pathname HostSearchParams newParams w1) = Return url
    /\ fst (createSafeURL pathname HostSearchParams newParams w2) = Return url
    /\ fst (createSafeURL pathname HostSearchParams newParams
              (snd (createSafeURL pathname HostSearchParams newParams w1)))
       = Return url.
Proof.
  intros Hq.
  exists (pathname +:+ "?" +:+
          URLSearchParams.toString (updatedParams (current_searchParams w1) newParams)).
  rewrite !createSafeURL_run; simpl. rewrite Hq. repeat split.
Qed.

Lemma createSafeURL_deterministic_witness :
  exists url : string,
    fst (createSafeURL "/about" HostSearchParams [("count", VNumber (Num.of_Z 1))]
           (render_world "/about" [("hello", "world")])) = Return url
    /\ fst (createSafeURL "/about" HostSearchParams [("count", VNumber (Num.of_Z 1))]
              {| current_pathname := "/other";
                 current_searchParams := [("hello", "world")];
                 objects := [[("stale", "1")]] |}) = Return url
    /\ fst (createSafeURL "/about" HostSearchParams [("count", VNumber (Num.of_Z 1))]
              (snd (createSafeURL "/about" HostSearchParams
                      [("count", VNumber (Num.of_Z 1))]
                      (render_world "/about" [("hello", "world")]))))
       = Return url.
Proof.
  apply (createSafeURL_deterministic "/about" [("count", VNumber (Num.of_Z 1))]
           (render_world "/about" [("hello", "world")])
           {| current_pathname := "/other";
              current_searchParams := [("hello", "world")];
              objects := [[("stale", "1")]] |}).
  reflexivity.
Defined.

(** C9: a call of [createSafeURL] leaves the current query as it was, the
    same tuples in the same order; it leaves every object that was in the
    store as it was too, and only adds the object it allocated. *)
Theorem createSafeURL_does_not_mutate pathname newParams w :
  let w' := snd (createSafeURL pathname HostSearchParams newParams w) in
  current_searchParams w' = current_searchParams w
  /\ read HostSearchParams w' = read HostSearchParams w
  /\ take (length (objects w)) (objects w') = objects w
  /\ length (objects w') = S (length (objects w)).
Proof.
  rewrite createSafeURL_run; simpl. repeat split.
  - now rewrite take_app_length.
  - rewrite length_app; simpl. lia.
Qed.

End CreateURL.

(** ** The query as a plain object *)

Section QueryMapping.
Import JS.

Lemma GetOwnProperty_create (o : JS.object) k v k' :
  GetOwnProperty (CreateDataProperty o k v) k'
  = if String.eqb k k' then Some v else GetOwnProperty o k'.
Proof.
  induction o as [|[k0 v0] o IH]; simpl; [reflexivity|].
  destruct (String.eqb_spec k0 k); subst; simpl.
  - destruct (String.eqb_spec k k'); reflexivity.
  - rewrite IH. destruct (String.eqb_spec k0 k'), (String.eqb_spec k k');
      subst; congruence.
Qed.

Lemma GetOwnProperty_fold entries (o : JS.object) k :
  GetOwnProperty
    (fold_left (fun o '(k, v) => CreateDataProperty o k (VString v)) entries o) k
  = match last_occurrence entries k with
    | Some v => Some (VString v)
    | None => GetOwnProperty o k
    end.
Proof.
  revert o. induction entries as [|[k0 v0] entries IH]; intros o; simpl;
    [reflexivity|].
  rewrite IH. destruct (last_occurrence entries k); [reflexivity|].
  rewrite GetOwnProperty_create. destruct (String.eqb k0 k); reflexivity.
Qed.

Lemma GetOwnProperty_fromEntries entries k :
  GetOwnProperty (fromEntries entries) k = VString <$> last_occurrence entries k.
Proof.
  unfold fromEntries. rewrite GetOwnProperty_fold.
  destruct (last_occurrence entries k); reflexivity.
Qed.

Lemma raw_value_last entries k : raw_value entries k = last_occurrence entries k.
Proof.
  unfold raw_value. rewrite GetOwnProperty_fromEntries.
  destruct (last_occurrence entries k); reflexivity.
Qed.

Lemma Get_fromEntries entries k :
  Get (fromEntries entries) k
  = match raw_value entries k with Some s => VString s | None => VUndefined end.
Proof.
  unfold Get. rewrite raw_value_last, GetOwnProperty_fromEntries.
  destruct (last_occurrence entries k); reflexivity.
Qed.

End QueryMapping.

(** ** Facts about the zod fragment *)

Section ZodFacts.
Import JS Zod.

Lemma check_issue_within path n c :
  check_issue path n c = None <-> within n c = true.
Proof.
  destruct c as [v [|]|v [|]]; simpl.
  - destruct (Num.lt n v); simpl; split; congruence.
  - destruct (Num.le n v); simpl; split; congruence.
  - destruct (Num.gt n v); simpl; split; congruence.
  - destruct (Num.ge n v); simpl; split; congruence.
Qed.

Lemma check_issue_path path n c i : check_issue path n c = Some i -> issue_path i = path.
Proof.
  destruct c as [v [|]|v [|]]; simpl;
    match goal with |- context [if ?b then _ else _] => destruct b end;
    intros H; inversion H; reflexivity.
Qed.

Lemma omap_check_issue_nil path n cs :
  omap (check_issue path n) cs = [] <-> forallb (within n) cs = true.
Proof.
  induction cs as [|c cs IH]; simpl; [tauto|].
  destruct (check_issue path n c) eqn:E.
  - assert (within n c = false) as ->.
    { destruct (within n c) eqn:W; [|reflexivity].
      apply check_issue_within with (path := path) in W. congruence. }
    simpl. split; discriminate.
  - apply check_issue_within in E. rewrite E; simpl. exact IH.
Qed.

Lemma omap_check_issue_path path n cs i :
  In i (omap (check_issue path n) cs) -> issue_path i = path.
Proof.
  induction cs as [|c cs IH]; simpl; [contradiction|].
  destruct (check_issue path n c) eqn:E; [|exact IH].
  intros [<-|H]; [now apply check_issue_path in E|now apply IH].
Qed.

(** What [ZodNumber._parse] returns, case by case. *)
Lemma parse_number_cases d path data :
  let coerced := if coerce d then VNumber (ToNumber data) else data in
  match coerced with
  | VNumber n =>
      if number_ok d n then parse_number d path data = (OK (VNumber n), [])
      else isValid (fst (parse_number d path data)) = false
           /\ snd (parse_number d path data) <> []
           /\ forall i, In i (snd (parse_number d path data)) -> issue_path i = path
  | _ => parse_number d path data = (INVALID, [Issue invalid_type path []])
  end.
Proof.
  unfold parse_number, number_ok.
  destruct (if coerce d then VNumber (ToNumber data) else data); try reflexivity.
  destruct (Num.isNaN n); simpl.
  - repeat split; [discriminate|]. intros i [<-|[]]. reflexivity.
  - destruct (omap (check_issue path n) (checks d)) as [|i0 is0] eqn:E.
    + apply omap_check_issue_nil in E. now rewrite E.
    + assert (forallb (within n) (checks d) = false) as ->.
      { destruct (forallb (within n) (checks d)) eqn:W; [|reflexivity].
        apply (omap_check_issue_nil path) in W. congruence. }
      repeat split; [discriminate|]. intros i Hi. simpl in Hi.
      apply (omap_check_issue_path path n (checks d)). now rewrite E.
Qed.

Lemma parse_number_accepted d path data n :
  accepted d data = Some n -> parse_number d path data = (OK (VNumber n), []).
Proof.
  unfold accepted. pose proof (parse_number_cases d path data) as H; simpl in H.
  destruct (if coerce d then VNumber (ToNumber data) else data); try discriminate.
  destruct (number_ok d n0); [|discriminate]. now intros [= <-].
Qed.

Lemma parse_number_rejected d path data :
  accepted d data = None ->
  isValid (fst (parse_number d path data)) = false
  /\ snd (parse_number d path data) <> []
  /\ forall i, In i (snd (parse_number d path data)) -> issue_path i = path.
Proof.
  unfold accepted. pose proof (parse_number_cases d path data) as H; simpl in H.
  destruct (if coerce d then VNumber (ToNumber data) else data);
    try (intros _; rewrite H; simpl; repeat split;
         [discriminate|intros i [<-|[]]; reflexivity]).
  destruct (number_ok d n); [discriminate|]. intros _. exact H.
Qed.

(** A valid result satisfies the constraints of the schema. *)
Lemma parse_sound t path data v issues :
  _parse t path data = (OK v, issues) -> satisfies t v.
Proof.
  revert path data v issues.
  induction t as [d|c| |schema IH f|t1 IH1 t2 IH2]; intros path data v issues; simpl.
  - intros H. pose proof (parse_number_cases d path data) as C; simpl in C.
    destruct (if coerce d then VNumber (ToNumber data) else data) eqn:E;
      try (rewrite C in H; discriminate).
    destruct (number_ok d n) eqn:N.
    + rewrite C in H. inversion H; subst. now exists n.
    + destruct C as [C _]. rewrite H in C. discriminate.
  - unfold parse_string.
    destruct (if c then VString (ToString data) else data); try discriminate.
    intros [= <- <-]. now exists s.
  - trivial.
  - destruct (_parse schema path data) as [[|x|x] is0] eqn:E; try discriminate.
    intros [= <- <-]. exists x. split; [|reflexivity]. eapply IH, E.
  - destruct (_parse t1 path data) as [r1 is1] eqn:E1.
    destruct r1 as [|x|x]; simpl.
    + destruct (_parse t2 path data) as [r2 is2] eqn:E2.
      destruct r2 as [|y|y]; simpl; try discriminate.
      intros [= <- <-]. right. eapply IH2, E2.
    + destruct (_parse t2 path data) as [r2 is2] eqn:E2.
      destruct r2 as [|y|y]; simpl; try discriminate.
      intros [= <- <-]. right. eapply IH2, E2.
    + intros [= <- <-]. left. eapply IH1, E1.
Qed.

(** A schema with a fallback never fails: it produces what the schema
    produces when that is valid, and otherwise the fallback. *)
Lemma parse_or_fallback inner fb path data :
  _parse (or inner (Page.fallback fb)) path data
  = (OK (match fst (_parse inner path data) with
         | OK v => v
         | _ => fb
         end), []).
Proof.
  simpl. destruct (_parse inner path data) as [[|x|x] is1]; reflexivity.
Qed.

(** A result that is not valid comes with issues, all of them about the
    datum parsed. *)
Lemma parse_invalid_issues t path data :
  isValid (fst (_parse t path data)) = false ->
  snd (_parse t path data) <> []
  /\ forall i, In i (snd (_parse t path data)) -> issue_path i = path.
Proof.
  revert path data.
  induction t as [d|c| |schema IH f|t1 IH1 t2 IH2]; intros path data; simpl.
  - intros H. pose proof (parse_number_cases d path data) as C; simpl in C.
    destruct (if coerce d then VNumber (ToNumber data) else data) eqn:E;
      try (rewrite C; simpl; split; [discriminate|intros i [<-|[]]; reflexivity]).
    destruct (number_ok d n).
    + rewrite C in H. discriminate.
    + exact (proj2 C).
  - unfold parse_string.
    destruct (if c then VString (ToString data) else data); simpl;
      try discriminate; intros _;
      (split; [discriminate|intros i [<-|[]]; reflexivity]).
  - discriminate.
  - specialize (IH path data).
    destruct (_parse schema path data) as [[|x|x] is0]; simpl in *;
      try discriminate; intros _; now apply IH.
  - specialize (IH1 path data). specialize (IH2 path data).
    destruct (_parse t1 path data) as [[|x|x] is1];
      destruct (_parse t2 path data) as [[|y|y] is2]; simpl in *;
      try discriminate; intros _;
      try (now apply IH1); try (now apply IH2).
    split; [discriminate|]. intros i [<-|[]]. reflexivity.
Qed.

Lemma number_rejects_undefined d : rejects_undefined (ZodNumber d).
Proof.
  intros path. simpl. apply parse_number_rejected.
  unfold accepted, number_ok. destruct (coerce d); reflexivity.
Qed.

(** *** Merging the parsed fields *)

Lemma mergeObjectSync_dirty o pairs :
  isValid (mergeObjectSync true o pairs) = false.
Proof.
  revert o. induction pairs as [|p pairs IH]; intros o; simpl; [reflexivity|].
  destruct (result p); simpl; [reflexivity|apply IH|apply IH].
Qed.

Lemma mergeObjectSync_OK dirty o pairs v :
  mergeObjectSync dirty o pairs = OK v ->
  dirty = false
  /\ Forall (fun p => isValid (result p) = true) pairs
  /\ v = VObject (fold_left assign pairs o).
Proof.
  revert dirty o. induction pairs as [|p pairs IH]; intros dirty o; simpl.
  - destruct dirty; [discriminate|]. intros [= <-]. now repeat split.
  - destruct (result p) as [|x|x] eqn:R; simpl; [discriminate| |].
    + rewrite orb_true_r. intros H.
      pose proof (mergeObjectSync_dirty
        (if negb (String.eqb (key p) "__proto__")
            && (negb (is_undefined x) || alwaysSet p)
         then CreateDataProperty o (key p) x else o) pairs) as D.
      rewrite H in D. discriminate.
    + rewrite orb_false_r. intros H. apply IH in H as (Hd & Hall & Hv).
      repeat split; [exact Hd| |].
      * constructor; [now rewrite R|exact Hall].
      * assert (assign o p
                = if negb (String.eqb (key p) "__proto__")
                     && (negb (is_undefined x) || alwaysSet p)
                  then CreateDataProperty o (key p) x else o) as ->
          by (unfold assign; now rewrite R).
        exact Hv.
Qed.

Lemma mergeObjectSync_not_valid dirty o pairs p :
  In p pairs -> isValid (result p) = false ->
  isValid (mergeObjectSync dirty o pairs) = false.
Proof.
  revert dirty o. induction pairs as [|q pairs IH]; intros dirty o; simpl;
    [contradiction|].
  intros [->|Hin] Hp.
  - destruct (result p); simpl in *; [reflexivity| |discriminate].
    rewrite orb_true_r. apply mergeObjectSync_dirty.
  - destruct (result q); simpl; [reflexivity| |]; now apply IH.
Qed.

Lemma GetOwnProperty_assign_other o p k :
  key p <> k -> GetOwnProperty (assign o p) k = GetOwnProperty o k.
Proof.
  intros Hk. unfold assign.
  destruct (result p); [reflexivity| |];
    (destruct (negb (String.eqb (key p) "__proto__") && _); [|reflexivity];
     rewrite GetOwnProperty_create;
     now rewrite (proj2 (String.eqb_neq (key p) k))).
Qed.

Lemma GetOwnProperty_fold_assign_other pairs o k :
  ~ In k (map key pairs) ->
  GetOwnProperty (fold_left assign pairs o) k = GetOwnProperty o k.
Proof.
  revert o. induction pairs as [|p pairs IH]; intros o Hk; simpl; [reflexivity|].
  rewrite IH by (intros H; apply Hk; now right).
  apply GetOwnProperty_assign_other. intros E. apply Hk. now left.
Qed.

(** With distinct keys, reading a key of the merged object gives the
    value parsed for that key. *)
Lemma Get_fold_assign pairs o p x :
  List.NoDup (map key pairs) -> In p pairs -> result p = OK x ->
  key p <> "__proto__" -> GetOwnProperty o (key p) = None ->
  Get (fold_left assign pairs o) (key p) = x.
Proof.
  revert o. induction pairs as [|q pairs IH]; intros o Hnd Hin Hr Hk Ho; simpl;
    [contradiction|].
  inversion Hnd as [|? ? Hnotin Hnd']; subst.
  destruct Hin as [->|Hin].
  - unfold Get. rewrite GetOwnProperty_fold_assign_other by assumption.
    unfold assign. rewrite Hr.
    rewrite (proj2 (String.eqb_neq (key p) "__proto__")) by assumption; simpl.
    destruct (negb (is_undefined x) || alwaysSet p) eqn:G.
    + rewrite GetOwnProperty_create, String.eqb_refl. reflexivity.
    + rewrite Ho. destruct x; simpl in G; try discriminate. reflexivity.
  - apply IH; try assumption.
    rewrite GetOwnProperty_assign_other; [assumption|].
    intros E. apply Hnotin. rewrite E. now apply in_map.
Qed.

(** *** The object schema and the hook *)

Lemma parse_field_key o path f : key (fst (parse_field o path f)) = fst f.
Proof. unfold parse_field. now destruct (_parse _ _ _). Qed.

Lemma parse_field_result o path f :
  result (fst (parse_field o path f))
  = fst (_parse (snd f) (path ++ [fst f]) (Get o (fst f))).
Proof. unfold parse_field. now destruct (_parse _ _ _). Qed.

Lemma parse_field_issues o path f :
  snd (parse_field o path f)
  = snd (_parse (snd f) (path ++ [fst f]) (Get o (fst f))).
Proof. unfold parse_field. now destruct (_parse _ _ _). Qed.

Lemma parsed_keys o path fields :
  map key (map fst (map (parse_field o path) fields)) = map fst fields.
Proof.
  induction fields as [|f fields IH]; simpl; [reflexivity|].
  now rewrite parse_field_key, IH.
Qed.

(** When the object schema accepts the data, each field of the state is
    the valid result of parsing the datum of that key. *)
Lemma parse_Return_field fields o state k t :
  shape_ok fields ->
  parse (object fields) (VObject o) = Return state ->
  In (k, t) fields ->
  fst (_parse t [k] (Get o k)) = OK (field state k).
Proof.
  intros [Hnd Hproto] Hparse Hin. unfold parse, parse_object in Hparse.
  simpl in Hparse.
  destruct (mergeObjectSync false [] (map fst (map (parse_field o []) fields)))
    as [|x|x] eqn:M; try discriminate.
  injection Hparse as <-.
  apply mergeObjectSync_OK in M as (_ & Hall & ->).
  set (p := fst (parse_field o [] (k, t))).
  assert (Hp : In p (map fst (map (parse_field o []) fields))).
  { apply in_map. now apply (in_map (parse_field o [])) in Hin. }
  rewrite List.Forall_forall in Hall.
  pose proof (Hall p Hp) as Hvalid.
  assert (Hkey : key p = k) by apply (parse_field_key o [] (k, t)).
  assert (Hres : result p = fst (_parse t [k] (Get o k)))
    by apply (parse_field_result o [] (k, t)).
  destruct (result p) as [|y|y] eqn:R; try discriminate.
  rewrite <- Hres. f_equal. simpl. rewrite <- Hkey. symmetry.
  apply Get_fold_assign; try assumption.
  - now rewrite parsed_keys.
  - rewrite Hkey. intros ->. apply (Hproto "__proto__"); [|now left].
    change "__proto__" with (fst ("__proto__", t)). now apply in_map.
  - reflexivity.
Qed.

(** When a field is not valid, [parse] throws the collected issues. *)
Lemma parse_Throw_field fields o k t :
  In (k, t) fields ->
  isValid (fst (_parse t [k] (Get o k))) = false ->
  exists issues,
    parse (object fields) (VObject o) = Throw (mkZodError issues)
    /\ forall i, In i (snd (_parse t [k] (Get o k))) -> In i issues.
Proof.
  intros Hin Hv. unfold parse, parse_object; simpl.
  set (parsed := map (parse_field o []) fields).
  assert (Hm : isValid (mergeObjectSync false [] (map fst parsed)) = false).
  { apply mergeObjectSync_not_valid with (p := fst (parse_field o [] (k, t))).
    - apply in_map. now apply (in_map (parse_field o [])) in Hin.
    - now rewrite parse_field_result. }
  exists (flat_map snd parsed). split.
  - destruct (mergeObjectSync false [] (map fst parsed)); try reflexivity.
    discriminate.
  - intros i Hi. apply in_flat_map. exists (parse_field o [] (k, t)). split.
    + now apply (in_map (parse_field o [])) in Hin.
    + now rewrite parse_field_issues.
Qed.

Lemma useSafeSearchParams_run schema w :
  Hook.useSafeSearchParams schema w
  = match parse schema (VObject (fromEntries (Host.current_searchParams w))) with
    | Return state =>
        (Return (state,
                 Hook.createSafeURL (Host.current_pathname w) Host.HostSearchParams),
         w)
    | Throw e => (Throw e, w)
    end.
Proof.
  unfold Hook.useSafeSearchParams, Hook.safeSearchParams, mbind, Host.M_bind.
  unfold Host.usePathname, Host.useSearchParams, Host.URLSearchParams_entries.
  unfold Host.lift, Host.read.
  destruct (parse schema (VObject (fromEntries (Host.current_searchParams w))));
    reflexivity.
Qed.

(** *** The policy of a field in the words of the specification *)

Lemma accepted_string d s : accepted d (VString s) = coerced_value d s.
Proof. unfold accepted, coerced_value. destruct (coerce d); reflexivity. Qed.

Lemma parse_number_string d path s :
  fst (_parse (ZodNumber d) path (VString s))
  = match coerced_value d s with
    | Some n => OK (VNumber n)
    | None => fst (_parse (ZodNumber d) path (VString s))
    end
  /\ (coerced_value d s = None <->
      isValid (fst (_parse (ZodNumber d) path (VString s))) = false).
Proof.
  simpl. rewrite <- accepted_string.
  destruct (accepted d (VString s)) as [n|] eqn:A.
  - rewrite (parse_number_accepted d path _ n A). simpl.
    split; [reflexivity|]. split; discriminate.
  - split; [reflexivity|]. split; [|reflexivity].
    intros _. now apply parse_number_rejected.
Qed.

(** For a number field the policy reads: the coerced number when the raw
    string passes, the fallback otherwise. *)
Lemma accept_or_fallback_number d fb k raw :
  accept_or_fallback (ZodNumber d) fb k raw
  = match raw with
    | Some s =>
        match coerced_value d s with
        | Some n => VNumber n
        | None => fb
        end
    | None => fb
    end.
Proof.
  unfold accept_or_fallback. destruct raw as [s|]; [|reflexivity].
  destruct (parse_number_string d [k] s) as [H1 H2].
  destruct (coerced_value d s) as [n|].
  - now rewrite H1.
  - destruct (fst (_parse (ZodNumber d) [k] (VString s))); try reflexivity.
    now pose proof (proj1 H2 eq_refl).
Qed.

Lemma accept_or_fallback_datum inner fb k raw :
  rejects_undefined inner ->
  match fst (_parse inner [k] (datum raw)) with
  | OK v => v
  | _ => fb
  end
  = accept_or_fallback inner fb k raw.
Proof.
  intros Hrej. destruct raw as [s|]; simpl; [reflexivity|].
  specialize (Hrej [k]). now destruct (fst (_parse inner [k] VUndefined)).
Qed.

Lemma Get_datum entries k :
  Get (fromEntries entries) k = datum (raw_value entries k).
Proof. apply Get_fromEntries. Qed.

Lemma parse_Return_object fields data state :
  parse (object fields) data = Return state -> exists o, state = VObject o.
Proof.
  unfold parse, parse_object. destruct data; simpl; try discriminate.
  destruct (mergeObjectSync false [] _) as [|x|x] eqn:M; try discriminate.
  intros [= <-]. apply mergeObjectSync_OK in M as (_ & _ & ->). eauto.
Qed.

Lemma count_shape_ok : shape_ok (shape Page.searchParamsSchema).
Proof.
  split; simpl.
  - repeat constructor; simpl; intuition discriminate.
  - intros k [<-|[]]. simpl. intuition discriminate.
Qed.

End ZodFacts.

(** ** The validated state *)

Module Evaluate.
Import JS Zod Host Hook Page.

(** Runs the hook on a concrete schema and store: the call of [parse] is
    evaluated, the function the hook returns is left as it is. *)
Ltac hook_run :=
  rewrite useSafeSearchParams_run;
  match goal with
  | |- context [parse ?s ?d] =>
      let r := eval vm_compute in (parse s d) in
      replace (parse s d) with r by (vm_compute; reflexivity)
  end.

(** A field [z.coerce.string().or(fallback("all"))] and an empty query:
    the key is absent, the coercion turns the absent datum into the word
    [undefined], and the state holds that word, not the fallback. *)
Lemma accept_or_fallback_counterexample :
  ~ accept_or_fallback_as_stated
      [("q", or coerce_string (fallback (VString "all")))]
      (render_world "/about" []).
Proof.
  intros H.
  assert (Hrun : fst (useSafeSearchParams
                        (object [("q", or coerce_string (fallback (VString "all")))])
                        (render_world "/about" []))
                 = Return (VObject [("q", VString "undefined")],
                           createSafeURL "/about" HostSearchParams))
    by (hook_run; reflexivity).
  specialize (H "q" coerce_string (VString "all") _ _ (or_introl eq_refl) Hrun).
  vm_compute in H. discriminate.
Qed.

(** C1, amended: for a field declared with a fallback, when the query
    mapping has a raw value for the key the state holds what the schema
    produces from it if it passes the schema, and the fallback if it does
    not; when the key is absent the schema is run on the absent datum, and
    the state holds the fallback whenever the schema does not let the
    absent datum through, as no number schema does.  For a number field
    that is the coerced number or the fallback.  For [count] (coerced
    number, minimum 0, fallback 0) the query [count=5] gives 5, the empty
    query gives 0 and [count=-3] gives 0. *)
Theorem safeSearchParams_accept_or_fallback :
  (forall fields w k inner fb state createURL,
      shape_ok fields ->
      In (k, or inner (fallback fb)) fields ->
      fst (useSafeSearchParams (object fields) w) = Return (state, createURL) ->
      match raw_value (current_searchParams w) k with
      | Some s => field state k = accept_or_fallback inner fb k (Some s)
      | None =>
          field state k
          = match fst (_parse inner [k] VUndefined) with
            | OK v => v
            | _ => fb
            end
          /\ (rejects_undefined inner -> field state k = fb)
      end)
  /\ (forall d, rejects_undefined (ZodNumber d))
  /\ (forall d fb k raw,
        accept_or_fallback (ZodNumber d) fb k raw
        = match raw with
          | Some s =>
              match coerced_value d s with
              | Some n => VNumber n
              | None => fb
              end
          | None => fb
          end)
  /\ fst (useSafeSearchParams searchParamsSchema
            (render_world "/about" [("count", "5")]))
     = Return (VObject [("count", VNumber (Num.of_Z 5))],
               createSafeURL "/about" HostSearchParams)
  /\ fst (useSafeSearchParams searchParamsSchema (render_world "/about" []))
     = Return (VObject [("count", VNumber (Num.of_Z 0))],
               createSafeURL "/about" HostSearchParams)
  /\ fst (useSafeSearchParams searchParamsSchema
            (render_world "/about" [("count", "-3")]))
     = Return (VObject [("count", VNumber (Num.of_Z 0))],
               createSafeURL "/about" HostSearchParams).
Proof.
  split; [|split; [exact number_rejects_undefined|]; split;
           [exact accept_or_fallback_number|repeat split; hook_run; reflexivity]].
  intros fields w k inner fb state createURL Hok Hin Hrun.
  rewrite useSafeSearchParams_run in Hrun.
  destruct (parse (object fields) (VObject (fromEntries (current_searchParams w))))
    as [st|e] eqn:P; simpl in Hrun; [|discriminate].
  injection Hrun as <- _.
  pose proof (parse_Return_field fields _ st k _ Hok P Hin) as H.
  rewrite parse_or_fallback in H; simpl in H.
  injection H as H. rewrite <- H, Get_datum.
  destruct (raw_value (current_searchParams w) k) as [s|]; simpl.
  - reflexivity.
  - split; [reflexivity|]. intros Hrej.
    exact (accept_or_fallback_datum inner fb k None Hrej).
Qed.

Lemma safeSearchParams_accept_or_fallback_witness :
  field (VObject [("count", VNumber (Num.of_Z 5))]) "count"
  = accept_or_fallback (ZodNumber (min coerce_number (Num.of_Z 0)))
      (VNumber (Num.of_Z 0)) "count" (Some "5").
Proof.
  apply (proj1 safeSearchParams_accept_or_fallback
           (shape searchParamsSchema)
           (render_world "/about" [("count", "5")])
           "count" (ZodNumber (min coerce_number (Num.of_Z 0)))
           (VNumber (Num.of_Z 0))
           (VObject [("count", VNumber (Num.of_Z 5))])
           (createSafeURL "/about" HostSearchParams)).
  - apply count_shape_ok.
  - simpl. now left.
  - hook_run; reflexivity.
Defined.

(** C2: when [safeSearchParams] returns a state, the state is an object
    and each of its fields satisfies the constraints of the schema of that
    field; if every declared fallback satisfies the constraints of the
    schema it stands in for, so does the field, whether the raw value or
    the fallback was taken. *)
Theorem safeSearchParams_state_satisfies_schema fields w state createURL :
  shape_ok fields ->
  (forall k inner fb, In (k, or inner (fallback fb)) fields -> satisfies inner fb) ->
  fst (useSafeSearchParams (object fields) w) = Return (state, createURL) ->
  (exists o, state = VObject o)
  /\ (forall k t, In (k, t) fields -> satisfies t (field state k))
  /\ (forall k inner fb,
        In (k, or inner (fallback fb)) fields -> satisfies inner (field state k)).
Proof.
  intros Hok Hfb Hrun. rewrite useSafeSearchParams_run in Hrun.
  destruct (parse (object fields) (VObject (fromEntries (current_searchParams w))))
    as [st|e] eqn:P; simpl in Hrun; [|discriminate].
  injection Hrun as <- _.
  assert (Hall : forall k t, In (k, t) fields -> satisfies t (field st k)).
  { intros k t Hin.
    pose proof (parse_Return_field fields _ st k t Hok P Hin) as H.
    destruct (_parse t [k] (Get (fromEntries (current_searchParams w)) k))
      as [r issues] eqn:E; simpl in H; subst r.
    eapply parse_sound, E. }
  split; [eapply parse_Return_object, P|]. split; [exact Hall|].
  intros k inner fb Hin. destruct (Hall _ _ Hin) as [H|(x & _ & H)]; [exact H|].
  rewrite H. eapply Hfb, Hin.
Qed.

Lemma safeSearchParams_state_satisfies_schema_witness :
  satisfies (ZodNumber (min coerce_number (Num.of_Z 0)))
    (field (VObject [("count", VNumber (Num.of_Z 0))]) "count").
Proof.
  refine (proj2 (proj2 (safeSearchParams_state_satisfies_schema
                          (shape searchParamsSchema)
                          (render_world "/about" [("count", "-3")])
                          (VObject [("count", VNumber (Num.of_Z 0))])
                          (createSafeURL "/about" HostSearchParams) _ _ _))
            "count" _ (VNumber (Num.of_Z 0)) _).
  - apply count_shape_ok.
  - intros k inner fb [H|[]]. injection H as _ <- Hf.
    apply (f_equal (fun f => f VUndefined)) in Hf; simpl in Hf. subst fb.
    exists (Num.of_Z 0). split; reflexivity.
  - hook_run; reflexivity.
  - simpl. now left.
Defined.

(** A field [z.coerce.string()] and an empty query: the key is absent,
    the coercion turns the absent datum into the word [undefined], and
    the hook returns a state. *)
Lemma throws_when_absent_counterexample :
  ~ throws_when_absent_or_invalid [("q", coerce_string)] (render_world "/about" []).
Proof.
  intros H.
  destruct (H "q" coerce_string (or_introl eq_refl)) as (issues & Hrun & _).
  - intros inner fb. discriminate.
  - exact I.
  - rewrite useSafeSearchParams_run in Hrun.
    replace (parse (object [("q", coerce_string)])
               (VObject (fromEntries (current_searchParams (render_world "/about" [])))))
      with (Return (VObject [("q", VString "undefined")])) in Hrun
      by (vm_compute; reflexivity).
    discriminate.
Qed.

(** C7, amended: for a field whose schema does not let an absent datum
    through, as no number schema does, if the query mapping has no raw
    value for the key, or has one that fails the schema, the hook throws a
    [ZodError]; one of its issues has the key as its path.  A raw string
    fails a number schema exactly when it has no coerced value. *)
Theorem useSafeSearchParams_throws_without_fallback :
  (forall fields w k t,
      In (k, t) fields ->
      rejects_undefined t ->
      match raw_value (current_searchParams w) k with
      | Some s => isValid (fst (_parse t [k] (VString s))) = false
      | None => True
      end ->
      exists issues,
        useSafeSearchParams (object fields) w = (Throw (mkZodError issues), w)
        /\ exists i, In i issues /\ issue_path i = [k])
  /\ (forall d, rejects_undefined (ZodNumber d))
  /\ (forall d k s,
        coerced_value d s = None
        <-> isValid (fst (_parse (ZodNumber d) [k] (VString s))) = false).
Proof.
  split; [|split; [exact number_rejects_undefined|]].
  - intros fields w k t Hin Hrej Hraw.
    assert (Hv : isValid
                   (fst (_parse t [k] (Get (fromEntries (current_searchParams w)) k)))
                 = false).
    { rewrite Get_datum.
      destruct (raw_value (current_searchParams w) k); [exact Hraw|apply Hrej]. }
    destruct (parse_invalid_issues t [k] _ Hv) as (Hne & Hpath).
    destruct (parse_Throw_field fields (fromEntries (current_searchParams w)) k
                t Hin Hv) as (issues & Hparse & Hsub).
    exists issues. split.
    + rewrite useSafeSearchParams_run. now rewrite Hparse.
    + destruct (snd (_parse t [k] (Get (fromEntries (current_searchParams w)) k)))
        as [|i rest] eqn:E; [congruence|].
      exists i. split; [apply Hsub; now left|apply Hpath; now left].
  - intros d k s. apply parse_number_string.
Qed.

Lemma useSafeSearchParams_throws_without_fallback_witness :
  exists issues,
    useSafeSearchParams
      (object [("count", ZodNumber (min coerce_number (Num.of_Z 0)))])
      (render_world "/about" [("count", "-3")])
    = (Throw (mkZodError issues), render_world "/about" [("count", "-3")])
    /\ exists i, In i issues /\ issue_path i = ["count"].
Proof.
  apply (proj1 useSafeSearchParams_throws_without_fallback
           [("count", ZodNumber (min coerce_number (Num.of_Z 0)))]
           (render_world "/about" [("count", "-3")])
           "count" (ZodNumber (min coerce_number (Num.of_Z 0)))).
  - simpl. now left.
  - apply number_rejects_undefined.
  - reflexivity.
Defined.

(** C10: the query mapping holds, for each key, the value of the last
    tuple of the query with that key, and the field of the state is what
    the schema of the field produces from that value.  The query
    [count=1&count=7] gives the state [{count: 7}]. *)
Theorem safeSearchParams_last_occurrence_wins :
  (forall entries k,
      GetOwnProperty (fromEntries entries) k
      = VString <$> last_occurrence entries k)
  /\ (forall fields w k t state createURL,
        shape_ok fields ->
        In (k, t) fields ->
        fst (useSafeSearchParams (object fields) w) = Return (state, createURL) ->
        fst (_parse t [k]
               (match last_occurrence (current_searchParams w) k with
                | Some s => VString s
                | None => VUndefined
                end))
        = OK (field state k))
  /\ fst (useSafeSearchParams searchParamsSchema
            (render_world "/about" [("count", "1"); ("count", "7")]))
     = Return (VObject [("count", VNumber (Num.of_Z 7))],
               createSafeURL "/about" HostSearchParams).
Proof.
  split; [exact GetOwnProperty_fromEntries|].
  split; [|hook_run; reflexivity].
  intros fields w k t state createURL Hok Hin Hrun.
  rewrite useSafeSearchParams_run in Hrun.
  destruct (parse (object fields) (VObject (fromEntries (current_searchParams w))))
    as [st|e] eqn:P; simpl in Hrun; [|discriminate].
  injection Hrun as <- _.
  rewrite <- raw_value_last, <- Get_fromEntries.
  eapply parse_Return_field; eassumption.
Qed.

Lemma safeSearchParams_last_occurrence_wins_witness :
  fst (_parse (or (ZodNumber (min coerce_number (Num.of_Z 0)))
                  (fallback (VNumber (Num.of_Z 0))))
         ["count"]
         (match last_occurrence
                  (current_searchParams
                     (render_world "/about" [("count", "-1"); ("count", "7")]))
                  "count" with
          | Some s => VString s
          | None => VUndefined
          end))
  = OK (field (VObject [("count", VNumber (Num.of_Z 7))]) "count").
Proof.
  apply (proj1 (proj2 safeSearchParams_last_occurrence_wins)
           (shape searchParamsSchema)
           (render_world "/about" [("count", "-1"); ("count", "7")])
           "count" _ (VObject [("count", VNumber (Num.of_Z 7))])
           (createSafeURL "/about" HostSearchParams)).
  - apply count_shape_ok.
  - simpl. now left.
  - hook_run; reflexivity.
Defined.


Lemma accepted_number_ok d data n : accepted d data = Some n -> number_ok d n = true.
Proof.
  unfold accepted.
  destruct (if coerce d then VNumber (ToNumber data) else data); try discriminate.
  destruct (number_ok d n0) eqn:E; [|discriminate]. now intros [= <-].
Qed.

Lemma not_below_zero n :
  Num.isNaN n = false -> Num.lt n Num.zero = false -> Num.ge n Num.zero = true.
Proof.
  unfold Num.lt, Num.ge, Num.zero, SFltb, SFleb.
  destruct n as [[|]|[|]| |[|] m e]; simpl; intros; congruence.
Qed.

(** The page's schema never fails: whatever the query, the hook returns a
    state whose [count] is a number, not NaN and not below 0. *)
Lemma page_state_always_valid w :
  exists n,
    fst (useSafeSearchParams searchParamsSchema w)
    = Return (VObject [("count", VNumber n)],
              createSafeURL (current_pathname w) HostSearchParams)
    /\ Num.isNaN n = false
    /\ Num.ge n Num.zero = true.
Proof.
  rewrite useSafeSearchParams_run.
  set (d := min coerce_number (Num.of_Z 0)).
  set (data := Get (fromEntries (current_searchParams w)) "count").
  assert (P : parse searchParamsSchema
                (VObject (fromEntries (current_searchParams w)))
              = Return (VObject [("count",
                   match fst (_parse (ZodNumber d) ["count"] data) with
                   | OK v => v
                   | _ => VNumber Num.zero
                   end)])).
  { unfold parse, parse_object, searchParamsSchema, object. cbn [shape map].
    unfold parse_field. cbn [fst snd app].
    rewrite (parse_or_fallback (ZodNumber d) (VNumber (Num.of_Z 0))).
    fold data. cbn [fst snd map mergeObjectSync result key alwaysSet isDirty orb].
    destruct (fst (_parse (ZodNumber d) ["count"] data)) as [|x|x] eqn:E;
      try reflexivity.
    apply (f_equal (fun r => (r, @nil ZodIssue))) in E.
    assert (Hs : satisfies (ZodNumber d) x).
    { destruct (_parse (ZodNumber d) ["count"] data) as [r is0] eqn:E'.
      simpl in E. injection E as ->. eapply parse_sound, E'. }
    destruct Hs as (n & -> & _). reflexivity. }
  rewrite P. cbn [fst].
  destruct (accepted d data) as [n|] eqn:A.
  - simpl. rewrite (parse_number_accepted d ["count"] data n A). simpl.
    exists n. split; [reflexivity|].
    apply accepted_number_ok in A. unfold number_ok in A; simpl in A.
    apply andb_prop in A as [A1 A2]. rewrite andb_true_r in A2.
    apply negb_true_iff in A1. apply negb_true_iff in A2.
    split; [exact A1|]. now apply not_below_zero.
  - destruct (parse_number_rejected d ["count"] data A) as (Hv & _).
    simpl. simpl in Hv.
    destruct (fst (parse_number d ["count"] data)); try discriminate;
      exists Num.zero; repeat split.
Qed.

End Evaluate.

(** ** The hook as a whole *)

Module HookProps.
Import JS Zod Host Hook Page.

Lemma mergeObjectSync_all_valid o pairs :
  List.Forall (fun p => isValid (result p) = true) pairs ->
  mergeObjectSync false o pairs = OK (VObject (fold_left assign pairs o)).
Proof.
  intros H. revert o. induction H as [|p pairs Hp _ IH]; intros o; [reflexivity|].
  simpl. unfold assign at 2.
  destruct (result p) as [|x|x]; try discriminate. simpl. apply IH.
Qed.

Lemma parsed_all_valid o fields :
  all_fallbacks fields ->
  List.Forall (fun p => isValid (result p) = true)
    (map fst (map (parse_field o []) fields)).
Proof.
  intros Hall. apply List.Forall_forall. intros p Hp.
  apply in_map_iff in Hp as (q & <- & Hq).
  apply in_map_iff in Hq as ([k t] & <- & Hin).
  destruct (Hall k t Hin) as (inner & fb & ->).
  rewrite parse_field_result. simpl fst at 2. simpl snd.
  now rewrite parse_or_fallback.
Qed.

(** X1: a schema all of whose fields are declared with a fallback never
    makes the hook throw: whatever the query, the hook returns a state,
    together with [createSafeURL] bound to the current pathname, and it
    leaves the store as it found it. *)
Theorem useSafeSearchParams_total_with_fallbacks fields w :
  all_fallbacks fields ->
  exists state,
    useSafeSearchParams (object fields) w
    = (Return (state, createSafeURL (current_pathname w) HostSearchParams), w).
Proof.
  intros Hall. rewrite useSafeSearchParams_run.
  unfold parse, parse_object; simpl.
  rewrite mergeObjectSync_all_valid by now apply parsed_all_valid.
  eauto.
Qed.

Lemma useSafeSearchParams_total_with_fallbacks_witness :
  exists state,
    useSafeSearchParams
      (object [("count", or (ZodNumber (min coerce_number (Num.of_Z 0)))
                            (fallback (VNumber (Num.of_Z 0))));
               ("q", or string_ (fallback (VString "all")))])
      (render_world "/about" [("count", "abc")])
    = (Return (state, createSafeURL "/about" HostSearchParams),
       render_world "/about" [("count", "abc")]).
Proof.
  apply (useSafeSearchParams_total_with_fallbacks
           [("count", or (ZodNumber (min coerce_number (Num.of_Z 0)))
                         (fallback (VNumber (Num.of_Z 0))));
            ("q", or string_ (fallback (VString "all")))]
           (render_world "/about" [("count", "abc")])).
  intros k t [H|[H|[]]]; injection H as _ <-; eauto.
Defined.


Lemma keys_create (o : JS.object) k v :
  for_in_keys (CreateDataProperty o k v)
  = if key_in (for_in_keys o) k then for_in_keys o else for_in_keys o ++ [k].
Proof.
  unfold for_in_keys, key_in.
  induction o as [|[k0 v0] o IH]; simpl; [reflexivity|].
  rewrite (String.eqb_sym k k0).
  destruct (String.eqb_spec k0 k); subst; simpl; [reflexivity|].
  rewrite IH. now destruct (existsb (String.eqb k) (map fst o)).
Qed.

Lemma keys_assign_incl o p k :
  In k (for_in_keys (assign o p)) -> In k (for_in_keys o) \/ k = key p.
Proof.
  unfold assign. destruct (result p); [now left| |];
    (destruct (negb (String.eqb (key p) "__proto__") && _); [|now left];
     rewrite keys_create;
     destruct (key_in (for_in_keys o) (key p)); [now left|];
     rewrite in_app_iff; simpl; intuition).
Qed.

Lemma keys_assign_NoDup o p :
  List.NoDup (for_in_keys o) -> List.NoDup (for_in_keys (assign o p)).
Proof.
  intros Hnd. unfold assign. destruct (result p); [assumption| |];
    (destruct (negb (String.eqb (key p) "__proto__") && _); [|assumption];
     rewrite keys_create;
     destruct (key_in (for_in_keys o) (key p)) eqn:E; [assumption|];
     apply List.NoDup_app; [assumption|repeat constructor; intros []|];
     intros a Ha [<-|[]];
     apply key_in_spec in Ha; congruence).
Qed.

Lemma keys_fold_assign pairs o :
  List.NoDup (for_in_keys o) ->
  List.NoDup (for_in_keys (fold_left assign pairs o))
  /\ forall k, In k (for_in_keys (fold_left assign pairs o)) ->
               In k (for_in_keys o) \/ In k (map key pairs).
Proof.
  revert o. induction pairs as [|p pairs IH]; intros o Hnd; simpl.
  - split; [assumption|]. intros k Hk. now left.
  - destruct (IH (assign o p) (keys_assign_NoDup o p Hnd)) as [H1 H2].
    split; [assumption|]. intros k Hk.
    destruct (H2 k Hk) as [H|H]; [|now right; right].
    destruct (keys_assign_incl o p k H) as [H'|H']; [now left|].
    right. left. now symmetry.
Qed.

(** X2: the state the hook returns is an object with distinct keys, each
    of them a key of the schema: a parameter of the query that the schema
    does not declare never shows up in the state. *)
Theorem useSafeSearchParams_strips_unknown_keys fields w state createURL :
  fst (useSafeSearchParams (object fields) w) = Return (state, createURL) ->
  exists o,
    state = VObject o
    /\ List.NoDup (for_in_keys o)
    /\ forall k, In k (for_in_keys o) -> In k (map fst fields).
Proof.
  intros Hrun. rewrite useSafeSearchParams_run in Hrun.
  destruct (parse (object fields) (VObject (fromEntries (current_searchParams w))))
    as [st|e] eqn:P; simpl in Hrun; [|discriminate].
  injection Hrun as <- _.
  unfold parse, parse_object in P; simpl in P.
  destruct (mergeObjectSync false [] _) as [|x|x] eqn:M; try discriminate.
  injection P as <-. apply mergeObjectSync_OK in M as (_ & _ & ->).
  eexists. split; [reflexivity|].
  destruct (keys_fold_assign
              (map fst (map (parse_field (fromEntries (current_searchParams w)) [])
                            fields)) [] (List.NoDup_nil _)) as [H1 H2].
  split; [exact H1|]. intros k Hk.
  destruct (H2 k Hk) as [[]|H]. now rewrite parsed_keys in H.
Qed.

Lemma useSafeSearchParams_strips_unknown_keys_witness :
  exists o,
    VObject [("count", VNumber (Num.of_Z 5))] = VObject o
    /\ List.NoDup (for_in_keys o)
    /\ forall k, In k (for_in_keys o) -> In k (map fst (shape searchParamsSchema)).
Proof.
  apply (useSafeSearchParams_strips_unknown_keys
           (shape searchParamsSchema)
           (render_world "/about" [("hello", "world"); ("count", "5")])
           (VObject [("count", VNumber (Num.of_Z 5))])
           (createSafeURL "/about" HostSearchParams)).
  Evaluate.hook_run; reflexivity.
Defined.

(** X3: rendering the hook leaves the store as it was, whether it returns
    or throws, and a call of [createSafeURL] in between does not change
    what a later render returns. *)
Theorem useSafeSearchParams_unaffected_by_createSafeURL
    schema pathname newParams w :
  snd (useSafeSearchParams schema w) = w
  /\ fst (useSafeSearchParams schema
            (snd (createSafeURL pathname HostSearchParams newParams w)))
     = fst (useSafeSearchParams schema w).
Proof.
  rewrite !useSafeSearchParams_run, createSafeURL_run; simpl.
  destruct (parse schema (VObject (fromEntries (current_searchParams w))));
    split; reflexivity.
Qed.

End HookProps.

(** ** How calls of [createSafeURL] compose *)

Module CreateURLProps.
Import JS Zod Host Hook Page.

Section Lists.
Import URLSearchParams.

Lemma remove_name_absent k l : count l k = 0%nat -> remove_name k l = l.
Proof.
  unfold count, remove_name, has_name.
  induction l as [|[k0 v0] l IH]; simpl; [reflexivity|].
  destruct (String.eqb_spec k0 k); simpl; [discriminate|].
  intros H. now rewrite IH.
Qed.

(** Setting a key to the value its only tuple already holds changes
    nothing. *)
Lemma set_fixed l k v :
  count l k = 1%nat -> get l k = Some v -> set l k v = l.
Proof.
  unfold count, has_name.
  induction l as [|[k0 v0] l IH]; simpl; [discriminate|].
  destruct (String.eqb_spec k0 k); subst; simpl.
  - intros Hc [= ->]. f_equal. apply remove_name_absent.
    unfold count, has_name. now injection Hc.
  - intros Hc Hg. f_equal. now apply IH.
Qed.

Lemma set_all_fixed txt ks l :
  (forall k, In k ks -> count l k = 1%nat /\ get l k = Some (txt k)) ->
  set_all txt ks l = l.
Proof.
  induction ks as [|k ks IH]; intros H; [reflexivity|].
  change (set_all txt (k :: ks) l) with (set_all txt ks (set l k (txt k))).
  destruct (H k (or_introl eq_refl)) as [Hc Hg].
  rewrite (set_fixed l k (txt k) Hc Hg). apply IH.
  intros k' Hk'. apply H. now right.
Qed.

Lemma set_all_idempotent txt ks l :
  set_all txt ks (set_all txt ks l) = set_all txt ks l.
Proof.
  apply set_all_fixed. intros k Hk. split.
  - now apply count_set_all.
  - now apply get_set_all.
Qed.

Lemma count_zero_last l k : count l k = 0%nat -> last_occurrence l k = None.
Proof.
  unfold count, has_name.
  induction l as [|[k0 v0] l IH]; simpl; [reflexivity|].
  destruct (String.eqb_spec k0 k); simpl; [discriminate|].
  intros H. now rewrite IH.
Qed.

(** When a key has a single tuple, the last occurrence and the first are
    the same. *)
Lemma last_occurrence_unique l k :
  count l k = 1%nat -> last_occurrence l k = get l k.
Proof.
  unfold count, has_name.
  induction l as [|[k0 v0] l IH]; simpl; [discriminate|].
  destruct (String.eqb_spec k0 k); subst; simpl.
  - intros Hc. rewrite count_zero_last; [reflexivity|].
    unfold count, has_name. now injection Hc.
  - intros Hc. rewrite (IH Hc). now destruct (get l k).
Qed.

Lemma last_occurrence_untouched keys l k :
  key_in keys k = false ->
  last_occurrence (untouched keys l) k = last_occurrence l k.
Proof.
  intros Hk. unfold untouched.
  induction l as [|[k0 v0] l IH]; simpl; [reflexivity|].
  destruct (key_in keys k0) eqn:E; simpl.
  - rewrite IH. destruct (String.eqb_spec k0 k); [congruence|].
    now destruct (last_occurrence l k).
  - now rewrite IH.
Qed.

Lemma get_untouched keys l k :
  key_in keys k = false -> get (untouched keys l) k = get l k.
Proof.
  intros Hk. unfold untouched.
  induction l as [|[k0 v0] l IH]; simpl; [reflexivity|].
  destruct (key_in keys k0) eqn:E; simpl.
  - destruct (String.eqb_spec k0 k); [congruence|exact IH].
  - now rewrite IH.
Qed.

Lemma count_untouched keys l k :
  key_in keys k = false -> count (untouched keys l) k = count l k.
Proof.
  intros Hk. unfold untouched, count, has_name.
  induction l as [|[k0 v0] l IH]; simpl; [reflexivity|].
  destruct (key_in keys k0) eqn:E; simpl.
  - destruct (String.eqb_spec k0 k); [congruence|exact IH].
  - destruct (String.eqb_spec k0 k); simpl; now rewrite IH.
Qed.

(** What the merged query holds for any key. *)
Lemma updatedParams_lookup current newParams k :
  let updated := updatedParams current newParams in
  let named := key_in (for_in_keys newParams) k in
  get updated k
  = (if named then Some (written newParams k) else get current k)
  /\ count updated k = (if named then 1%nat else count current k)
  /\ last_occurrence updated k
     = (if named then Some (written newParams k) else last_occurrence current k).
Proof.
  simpl. unfold updatedParams.
  destruct (key_in (for_in_keys newParams) k) eqn:E.
  - apply key_in_spec in E.
    assert (Hc := count_set_all (written newParams) _ current k E).
    assert (Hg := get_set_all (written newParams) _ current k E).
    repeat split; try assumption.
    now rewrite last_occurrence_unique.
  - assert (Hu := untouched_set_all (written newParams) (for_in_keys newParams)
                    (for_in_keys newParams) current (fun _ H => H)).
    rewrite <- (get_untouched _ _ _ E), <- (count_untouched _ _ _ E),
      <- (last_occurrence_untouched _ _ _ E), Hu.
    now rewrite get_untouched, count_untouched, last_occurrence_untouched.
Qed.

End Lists.

End CreateURLProps.

(** ** The query string *)

Module QueryString.
Import URLSearchParams.

Ltac each_byte c :=
  destruct c as [[|] [|] [|] [|] [|] [|] [|] [|]]; reflexivity.

Lemma decode_encode_byte c t :
  percent_decode (plus_to_space (encode_byte c +:+ t))
  = String c (percent_decode (plus_to_space t)).
Proof. each_byte c. Qed.

Lemma encode_byte_query_chars c : string_forallb query_char (encode_byte c) = true.
Proof. each_byte c. Qed.

Lemma encode_byte_no_amp c :
  string_forallb (other_than (ascii_of_N 38)) (encode_byte c) = true.
Proof. each_byte c. Qed.

Lemma encode_byte_no_eq c :
  string_forallb (other_than (ascii_of_N 61)) (encode_byte c) = true.
Proof. each_byte c. Qed.

Lemma append_nil (t : string) : "" +:+ t = t.
Proof. reflexivity. Qed.

Lemma append_cons c (s t : string) : String c s +:+ t = String c (s +:+ t).
Proof. reflexivity. Qed.

Lemma string_forallb_app test s1 s2 :
  string_forallb test (s1 +:+ s2)
  = string_forallb test s1 && string_forallb test s2.
Proof.
  induction s1 as [|c s1 IH]; [reflexivity|].
  rewrite append_cons; simpl. now rewrite IH, andb_assoc.
Qed.

Lemma percent_encode_forallb test s :
  (forall c, string_forallb test (encode_byte c) = true) ->
  string_forallb test (percent_encode s) = true.
Proof.
  intros H. induction s as [|c s IH]; [reflexivity|].
  change (percent_encode (String c s)) with (encode_byte c +:+ percent_encode s).
  now rewrite string_forallb_app, H, IH.
Qed.

Lemma append_assoc (s1 s2 s3 : string) : (s1 +:+ s2) +:+ s3 = s1 +:+ (s2 +:+ s3).
Proof.
  induction s1 as [|c s1 IH]; [reflexivity|].
  rewrite !append_cons. now rewrite IH.
Qed.

Lemma decode_encode_app s t :
  percent_decode (plus_to_space (percent_encode s +:+ t))
  = s +:+ percent_decode (plus_to_space t).
Proof.
  induction s as [|c s IH]; [reflexivity|].
  change (percent_encode (String c s)) with (encode_byte c +:+ percent_encode s).
  now rewrite append_assoc, decode_encode_byte, IH.
Qed.

Lemma append_empty_r (s : string) : s +:+ "" = s.
Proof.
  induction s as [|c s IH]; [reflexivity|]. rewrite append_cons. now rewrite IH.
Qed.

(** Decoding undoes encoding. *)
Lemma decode_encode s : percent_decode (plus_to_space (percent_encode s)) = s.
Proof.
  rewrite <- (append_empty_r (percent_encode s)), decode_encode_app.
  simpl. apply append_empty_r.
Qed.

Lemma break_at_app sep x y :
  string_forallb (other_than sep) x = true ->
  break_at sep (x +:+ String sep y) = (x, Some y).
Proof.
  induction x as [|c x IH].
  - rewrite append_nil; simpl. now rewrite Ascii.eqb_refl.
  - rewrite append_cons; simpl.
    unfold other_than at 1. intros H. apply andb_prop in H as [H1 H2].
    apply negb_true_iff in H1. rewrite H1, (IH H2). reflexivity.
Qed.

Lemma split_none sep x :
  string_forallb (other_than sep) x = true -> split sep x = [x].
Proof.
  induction x as [|c x IH]; simpl; [reflexivity|].
  unfold other_than at 1. intros H. apply andb_prop in H as [H1 H2].
  apply negb_true_iff in H1. now rewrite H1, (IH H2).
Qed.

Lemma split_app sep x y :
  string_forallb (other_than sep) x = true ->
  split sep (x +:+ String sep y) = x :: split sep y.
Proof.
  induction x as [|c x IH].
  - rewrite append_nil; simpl. now rewrite Ascii.eqb_refl.
  - rewrite append_cons; simpl.
    unfold other_than at 1. intros H. apply andb_prop in H as [H1 H2].
    apply negb_true_iff in H1. now rewrite H1, (IH H2).
Qed.

Lemma split_concat sep xs :
  List.Forall (fun x => string_forallb (other_than sep) x = true) xs ->
  xs <> [] ->
  split sep (String.concat (String sep "") xs) = xs.
Proof.
  induction 1 as [|x xs Hx Hxs IH]; intros Hne; [congruence|].
  destruct xs as [|y ys].
  - simpl. now apply split_none.
  - change (String.concat (String sep "") (x :: y :: ys))
      with (x +:+ String sep (String.concat (String sep "") (y :: ys))).
    rewrite split_app by assumption. f_equal. now apply IH.
Qed.

Lemma serialize_tuple_no_amp p :
  string_forallb (other_than (ascii_of_N 38)) (serialize_tuple p) = true.
Proof.
  unfold serialize_tuple. rewrite !string_forallb_app.
  rewrite !percent_encode_forallb by apply encode_byte_no_amp. reflexivity.
Qed.

Lemma serialize_tuple_nonempty p : String.eqb (serialize_tuple p) "" = false.
Proof.
  unfold serialize_tuple. destruct (percent_encode (fst p)); reflexivity.
Qed.

Lemma parse_serialize_tuple p : parse_tuple (serialize_tuple p) = p.
Proof.
  destruct p as [k v]. unfold parse_tuple, serialize_tuple; simpl fst; simpl snd.
  change (percent_encode k +:+ "=" +:+ percent_encode v)
    with (percent_encode k +:+ String (ascii_of_N 61) (percent_encode v)).
  rewrite break_at_app
    by (apply percent_encode_forallb, encode_byte_no_eq).
  simpl. now rewrite !decode_encode.
Qed.

(** What the parser reads from a serialized query is the tuples that
    were serialized. *)
Lemma parse_toString (l : URLSearchParams.t) : parse (toString l) = l.
Proof.
  unfold parse, toString. destruct l as [|p l]; [reflexivity|].
  change "&" with (String (ascii_of_N 38) "").
  rewrite split_concat.
  - rewrite List.forallb_filter_id.
    + rewrite List.map_map. rewrite <- (List.map_id (p :: l)) at 2.
      apply List.map_ext. apply parse_serialize_tuple.
    + apply forallb_forall. intros x Hx. apply in_map_iff in Hx as (q & <- & _).
      now rewrite serialize_tuple_nonempty.
  - apply List.Forall_forall. intros x Hx. apply in_map_iff in Hx as (q & <- & _).
    apply serialize_tuple_no_amp.
  - discriminate.
Qed.

Lemma concat_forallb test sep xs :
  string_forallb test sep = true ->
  List.Forall (fun x => string_forallb test x = true) xs ->
  string_forallb test (String.concat sep xs) = true.
Proof.
  intros Hsep. induction 1 as [|x xs Hx Hxs IH]; [reflexivity|].
  destruct xs as [|y ys]; [exact Hx|].
  change (String.concat sep (x :: y :: ys))
    with (x +:+ sep +:+ String.concat sep (y :: ys)).
  now rewrite !string_forallb_app, Hx, Hsep, IH.
Qed.

Lemma toString_query_chars (l : URLSearchParams.t) :
  string_forallb query_char (toString l) = true.
Proof.
  unfold toString. apply concat_forallb; [reflexivity|].
  apply List.Forall_forall. intros x Hx. apply in_map_iff in Hx as (q & <- & _).
  unfold serialize_tuple. rewrite !string_forallb_app.
  rewrite !percent_encode_forallb by apply encode_byte_query_chars. reflexivity.
Qed.

Import JS Zod Host Hook.

(** X4: the query [createSafeURL] puts after the question mark reads
    back, through the parser of the URL standard, as exactly the tuples
    the call had merged: names, values and order. *)
Theorem createSafeURL_query_reads_back pathname newParams w :
  exists query : string,
    createSafeURL pathname HostSearchParams newParams w
    = (Return (pathname +:+ "?" +:+ query),
       with_objects w (objects w ++ [URLSearchParams.parse query])).
Proof.
  exists (toString (updatedParams (current_searchParams w) newParams)).
  now rewrite parse_toString, createSafeURL_run.
Qed.

(** X5: the query [createSafeURL] puts after the question mark is made of
    ASCII letters and digits and of the characters [* - . _ + % = &]
    alone: no space, quote, [#] or [?], and no byte outside ASCII. *)
Theorem createSafeURL_query_chars pathname newParams w :
  exists query : string,
    fst (createSafeURL pathname HostSearchParams newParams w)
    = Return (pathname +:+ "?" +:+ query)
    /\ string_forallb query_char query = true.
Proof.
  exists (toString (updatedParams (current_searchParams w) newParams)).
  rewrite createSafeURL_run. split; [reflexivity|apply toString_query_chars].
Qed.

End QueryString.

(** ** From one render to the next *)

Module RoundTrip.
Import JS Zod Host Hook Page.

Lemma append_cancel (s a b : string) : s +:+ a = s +:+ b -> a = b.
Proof.
  induction s as [|c s IH]; [trivial|].
  rewrite !QueryString.append_cons. intros [= H]. now apply IH.
Qed.

(** The query of the URL a call returned is the serialized merge. *)
Lemma returned_query pathname newParams w query :
  fst (createSafeURL pathname HostSearchParams newParams w)
  = Return (pathname +:+ "?" +:+ query) ->
  query
  = URLSearchParams.toString (updatedParams (current_searchParams w) newParams).
Proof.
  rewrite createSafeURL_run; simpl. intros [= H].
  apply append_cancel in H. apply (append_cancel "?") in H. now symmetry.
Qed.

(** The render after the navigation has the merged tuples for its query. *)
Lemma next_query pathname newParams w query w' :
  fst (createSafeURL pathname HostSearchParams newParams w)
  = Return (pathname +:+ "?" +:+ query) ->
  current_searchParams w' = URLSearchParams.parse query ->
  current_searchParams w' = updatedParams (current_searchParams w) newParams.
Proof.
  intros Hurl ->. rewrite (returned_query _ _ _ _ Hurl).
  apply QueryString.parse_toString.
Qed.

(** The last tuple of a key in the query of the render after the
    navigation. *)
Lemma next_last_occurrence pathname newParams w query w' k :
  fst (createSafeURL pathname HostSearchParams newParams w)
  = Return (pathname +:+ "?" +:+ query) ->
  current_searchParams w' = URLSearchParams.parse query ->
  last_occurrence (current_searchParams w') k
  = if key_in (for_in_keys newParams) k
    then Some (written newParams k)
    else last_occurrence (current_searchParams w) k.
Proof.
  intros Hurl Hnext. rewrite (next_query _ _ _ _ _ Hurl Hnext).
  apply (CreateURLProps.updatedParams_lookup (current_searchParams w) newParams k).
Qed.

(** X6: the render that follows a navigation to the URL that
    [createSafeURL] returned reads, for every key of the update, the text
    that was written for it, and for every other key the raw value the
    current render reads. *)
Theorem next_render_reads_what_was_written pathname newParams w query w' k :
  fst (createSafeURL pathname HostSearchParams newParams w)
  = Return (pathname +:+ "?" +:+ query) ->
  current_searchParams w' = URLSearchParams.parse query ->
  raw_value (current_searchParams w') k
  = if key_in (for_in_keys newParams) k
    then Some (written newParams k)
    else raw_value (current_searchParams w) k.
Proof.
  intros Hurl Hnext. rewrite (next_query _ _ _ _ _ Hurl Hnext), !raw_value_last.
  apply (CreateURLProps.updatedParams_lookup (current_searchParams w) newParams k).
Qed.

Lemma next_render_reads_what_was_written_witness :
  raw_value
    (current_searchParams (navigated "/about" "count=2&tab=a+b&name=%22x%22"))
    "name"
  = if key_in (for_in_keys [("count", VNumber (Num.of_Z 2)); ("name", VString "x")])
         "name"
    then Some (written [("count", VNumber (Num.of_Z 2)); ("name", VString "x")] "name")
    else raw_value
           (current_searchParams
              (render_world "/about" [("count", "1"); ("tab", "a b"); ("count", "9")]))
           "name".
Proof.
  apply (next_render_reads_what_was_written "/about"
           [("count", VNumber (Num.of_Z 2)); ("name", VString "x")]
           (render_world "/about" [("count", "1"); ("tab", "a b"); ("count", "9")])
           "count=2&tab=a+b&name=%22x%22"
           (navigated "/about" "count=2&tab=a+b&name=%22x%22") "name").
  - vm_compute. reflexivity.
  - reflexivity.
Defined.

(** X7: an update does not change what the schema validates for the
    fields it does not name: if the current render and the render after
    the navigation both return a state, a field whose key is not in the
    update has the same value in both. *)
Theorem next_render_keeps_other_fields
    fields pathname newParams w query w' k t state createURL state' createURL' :
  shape_ok fields ->
  In (k, t) fields ->
  ~ In k (for_in_keys newParams) ->
  fst (createSafeURL pathname HostSearchParams newParams w)
  = Return (pathname +:+ "?" +:+ query) ->
  current_searchParams w' = URLSearchParams.parse query ->
  fst (useSafeSearchParams (object fields) w) = Return (state, createURL) ->
  fst (useSafeSearchParams (object fields) w') = Return (state', createURL') ->
  field state' k = field state k.
Proof.
  intros Hok Hin Hk Hurl Hq Hrun Hnext.
  pose proof (next_last_occurrence _ _ _ _ _ k Hurl Hq) as Hraw.
  rewrite <- !raw_value_last in Hraw.
  rewrite (key_in_false _ _ Hk) in Hraw.
  rewrite useSafeSearchParams_run in Hrun, Hnext.
  destruct (parse (object fields) (VObject (fromEntries (current_searchParams w))))
    as [st|e] eqn:P; simpl in Hrun; [|discriminate].
  destruct (parse (object fields) (VObject (fromEntries (current_searchParams w'))))
    as [st'|e'] eqn:P'; simpl in Hnext; [|discriminate].
  injection Hrun as <- _. injection Hnext as <- _.
  pose proof (parse_Return_field fields _ st k t Hok P Hin) as H.
  pose proof (parse_Return_field fields _ st' k t Hok P' Hin) as H'.
  rewrite Get_datum in H, H'. rewrite Hraw, H in H'. now injection H'.
Qed.


Lemma next_render_keeps_other_fields_witness :
  field (VObject [("count", VNumber (Num.of_Z 2)); ("q", VString "shoes")]) "q"
  = field (VObject [("count", VNumber (Num.of_Z 1)); ("q", VString "shoes")]) "q".
Proof.
  apply (next_render_keeps_other_fields
           [("count", or (ZodNumber (min coerce_number (Num.of_Z 0)))
                         (fallback (VNumber (Num.of_Z 0))));
            ("q", or string_ (fallback (VString "all")))]
           "/about" [("count", VNumber (Num.of_Z 2))]
           (render_world "/about" [("q", "shoes"); ("count", "1")])
           "q=shoes&count=2"
           (navigated "/about" "q=shoes&count=2")
           "q" (or string_ (fallback (VString "all")))
           (VObject [("count", VNumber (Num.of_Z 1)); ("q", VString "shoes")])
           (createSafeURL "/about" HostSearchParams)
           (VObject [("count", VNumber (Num.of_Z 2)); ("q", VString "shoes")])
           (createSafeURL "/about" HostSearchParams)).
  - split; simpl.
    + repeat constructor; simpl; intuition discriminate.
    + intros k [<-|[<-|[]]]; simpl; intuition discriminate.
  - simpl. right. now left.
  - simpl. intuition discriminate.
  - vm_compute. reflexivity.
  - reflexivity.
  - Evaluate.hook_run; reflexivity.
  - Evaluate.hook_run; reflexivity.
Defined.

Lemma length_append (s t : string) :
  String.length (s +:+ t) = (String.length s + String.length t)%nat.
Proof.
  induction s as [|c s IH]; [reflexivity|].
  rewrite QueryString.append_cons; simpl. now rewrite IH.
Qed.

Lemma quote_byte_length c : (1 <=? String.length (quote_byte c))%nat = true.
Proof. destruct c as [[|] [|] [|] [|] [|] [|] [|] [|]]; reflexivity. Qed.

Lemma quote_bytes_length s : (String.length s <= String.length (quote_bytes s))%nat.
Proof.
  induction s as [|c s IH]; simpl; [lia|].
  rewrite length_append. pose proof (quote_byte_length c) as H.
  apply Nat.leb_le in H. lia.
Qed.

(** A string is never its own JSON text. *)
Lemma QuoteJSONString_differs s : QuoteJSONString s <> s.
Proof.
  intros H. apply (f_equal String.length) in H.
  unfold QuoteJSONString in H. rewrite !length_append in H.
  pose proof (quote_bytes_length s). simpl in H. lia.
Qed.

(** X8: a string does not survive the trip through the URL: when the
    update holds the string [s] for a key that the schema declares as a
    string, the render after the navigation has for that key the JSON
    text of [s], quote characters included, which is never [s] itself. *)
Theorem next_render_reads_strings_quoted
    fields pathname newParams w query w' k coerce s state' createURL' :
  shape_ok fields ->
  In (k, ZodString coerce) fields ->
  GetOwnProperty newParams k = Some (VString s) ->
  fst (createSafeURL pathname HostSearchParams newParams w)
  = Return (pathname +:+ "?" +:+ query) ->
  current_searchParams w' = URLSearchParams.parse query ->
  fst (useSafeSearchParams (object fields) w') = Return (state', createURL') ->
  field state' k = VString (QuoteJSONString s)
  /\ QuoteJSONString s <> s.
Proof.
  intros Hok Hin Hget Hurl Hq Hnext. split; [|apply QuoteJSONString_differs].
  pose proof (next_last_occurrence _ _ _ _ _ k Hurl Hq) as Hraw.
  rewrite <- !raw_value_last in Hraw.
  rewrite (proj2 (key_in_spec _ _) (CreateURL.own_property_key _ _ _ Hget)) in Hraw.
  unfold written, Get in Hraw. rewrite Hget in Hraw. simpl in Hraw.
  rewrite useSafeSearchParams_run in Hnext.
  destruct (parse (object fields) (VObject (fromEntries (current_searchParams w'))))
    as [st'|e'] eqn:P'; simpl in Hnext; [|discriminate].
  injection Hnext as <- _.
  pose proof (parse_Return_field fields _ st' k _ Hok P' Hin) as H'.
  rewrite Get_datum, Hraw in H'. simpl in H'. unfold parse_string in H'.
  destruct coerce; simpl in H'; now injection H'.
Qed.

Lemma next_render_reads_strings_quoted_witness :
  field (VObject [("q", VString (QuoteJSONString "shoes"))]) "q"
  = VString (QuoteJSONString "shoes")
  /\ QuoteJSONString "shoes" <> "shoes".
Proof.
  apply (next_render_reads_strings_quoted
           [("q", string_)] "/shop" [("q", VString "shoes")]
           (render_world "/shop" [("q", "hats")])
           "q=%22shoes%22" (navigated "/shop" "q=%22shoes%22")
           "q" false "shoes"
           (VObject [("q", VString (QuoteJSONString "shoes"))])
           (createSafeURL "/shop" HostSearchParams)).
  - split; simpl.
    + repeat constructor; simpl; intuition discriminate.
    + intros k [<-|[]]; simpl; intuition discriminate.
  - simpl. now left.
  - reflexivity.
  - vm_compute. reflexivity.
  - reflexivity.
  - Evaluate.hook_run; reflexivity.
Defined.

(** X9: building the same update again on the render after the
    navigation gives the same URL: the update is idempotent. *)
Theorem createSafeURL_idempotent pathname newParams w query w' :
  fst (createSafeURL pathname HostSearchParams newParams w)
  = Return (pathname +:+ "?" +:+ query) ->
  current_searchParams w' = URLSearchParams.parse query ->
  fst (createSafeURL pathname HostSearchParams newParams w')
  = Return (pathname +:+ "?" +:+ query).
Proof.
  intros Hurl Hq. rewrite createSafeURL_run; simpl.
  rewrite (next_query _ _ _ _ _ Hurl Hq).
  unfold updatedParams at 1. unfold updatedParams at 1.
  rewrite CreateURLProps.set_all_idempotent.
  now rewrite (returned_query _ _ _ _ Hurl).
Qed.

Lemma createSafeURL_idempotent_witness :
  fst (createSafeURL "/about" HostSearchParams
         [("count", VNumber (Num.of_Z 2)); ("name", VString "x")]
         (navigated "/about" "count=2&tab=a+b&name=%22x%22"))
  = Return ("/about" +:+ "?" +:+ "count=2&tab=a+b&name=%22x%22").
Proof.
  apply (createSafeURL_idempotent "/about"
           [("count", VNumber (Num.of_Z 2)); ("name", VString "x")]
           (render_world "/about" [("count", "1"); ("tab", "a b"); ("count", "9")])).
  - vm_compute. reflexivity.
  - reflexivity.
Defined.

(** X10: of two updates made one after the other, the later one wins: on
    the render after the first navigation, a second update leaves in the
    query one tuple for each of its keys, holding its text; a key of the
    first update that the second does not name keeps the text of the
    first; every other key has the tuples it had at the start. *)
Theorem createSafeURL_later_update_wins
    pathname first second w query w' k :
  fst (createSafeURL pathname HostSearchParams first w)
  = Return (pathname +:+ "?" +:+ query) ->
  current_searchParams w' = URLSearchParams.parse query ->
  exists updated : URLSearchParams.t,
    createSafeURL pathname HostSearchParams second w'
    = (Return (pathname +:+ "?" +:+ URLSearchParams.toString updated),
       with_objects w' (objects w' ++ [updated]))
    /\ URLSearchParams.get updated k
       = (if key_in (for_in_keys second) k then Some (written second k)
          else if key_in (for_in_keys first) k then Some (written first k)
          else URLSearchParams.get (current_searchParams w) k)
    /\ URLSearchParams.count updated k
       = (if key_in (for_in_keys second) k then 1%nat
          else if key_in (for_in_keys first) k then 1%nat
          else URLSearchParams.count (current_searchParams w) k).
Proof.
  intros Hurl Hq.
  exists (updatedParams (current_searchParams w') second).
  split; [apply createSafeURL_run|].
  rewrite (next_query _ _ _ _ _ Hurl Hq).
  destruct (CreateURLProps.updatedParams_lookup
              (updatedParams (current_searchParams w) first) second k)
    as (Hg & Hc & _).
  destruct (CreateURLProps.updatedParams_lookup (current_searchParams w) first k)
    as (Hg1 & Hc1 & _).
  simpl in *. now rewrite Hg, Hc, Hg1, Hc1.
Qed.

Lemma createSafeURL_later_update_wins_witness :
  exists updated : URLSearchParams.t,
    createSafeURL "/about" HostSearchParams
      [("count", VNumber (Num.of_Z 3))]
      (navigated "/about" "count=2&tab=a+b&name=%22x%22")
    = (Return ("/about" +:+ "?" +:+ URLSearchParams.toString updated),
       with_objects (navigated "/about" "count=2&tab=a+b&name=%22x%22")
         (objects (navigated "/about" "count=2&tab=a+b&name=%22x%22") ++ [updated]))
    /\ URLSearchParams.get updated "name" = Some (QuoteJSONString "x")
    /\ URLSearchParams.count updated "name" = 1%nat.
Proof.
  apply (createSafeURL_later_update_wins "/about"
           [("count", VNumber (Num.of_Z 2)); ("name", VString "x")]
           [("count", VNumber (Num.of_Z 3))]
           (render_world "/about" [("count", "1"); ("tab", "a b"); ("count", "9")])
           "count=2&tab=a+b&name=%22x%22"
           (navigated "/about" "count=2&tab=a+b&name=%22x%22") "name").
  - vm_compute. reflexivity.
  - reflexivity.
Defined.

End RoundTrip.

(** ** The page *)

Module HomeProps.
Import JS Zod Host Hook Page.

(** The count a render shows: the coerced number when the query has a raw
    value that passes, 0 otherwise. *)
Lemma page_count w :
  exists n,
    useSafeSearchParams searchParamsSchema w
    = (Return (VObject [("count", VNumber n)],
               createSafeURL (current_pathname w) HostSearchParams), w)
    /\ VNumber n
       = accept_or_fallback (ZodNumber count_def) (VNumber (Num.of_Z 0)) "count"
           (raw_value (current_searchParams w) "count")
    /\ Num.isNaN n = false
    /\ Num.ge n Num.zero = true.
Proof.
  destruct (Evaluate.page_state_always_valid w) as (n & Hrun & Hnan & Hge).
  exists n. rewrite useSafeSearchParams_run in Hrun |- *.
  destruct (parse searchParamsSchema
              (VObject (fromEntries (current_searchParams w)))) as [st|e] eqn:P;
    simpl in Hrun; [|discriminate].
  injection Hrun as ->. repeat split; try assumption.
  pose proof (parse_Return_field (shape searchParamsSchema) _ _ "count" _
                count_shape_ok P (or_introl eq_refl)) as H.
  rewrite parse_or_fallback in H. simpl fst in H. injection H as H.
  rewrite Get_datum in H.
  rewrite <- (accept_or_fallback_datum (ZodNumber count_def) _ _ _
                (number_rejects_undefined _)).
  symmetry. exact H.
Qed.

Lemma Home_run router w :
  exists n,
    Home router w
    = (Return {| shown_count := VNumber n;
                 onClick := incrementCount router (VNumber n)
                              (createSafeURL (current_pathname w) HostSearchParams);
                 href := current_pathname w +:+ "?" +:+
                         URLSearchParams.toString
                           (incremented_query (current_searchParams w) n) |},
       with_objects w
         (objects w ++ [incremented_query (current_searchParams w) n]))
    /\ VNumber n
       = accept_or_fallback (ZodNumber count_def) (VNumber (Num.of_Z 0)) "count"
           (raw_value (current_searchParams w) "count")
    /\ Num.isNaN n = false
    /\ Num.ge n Num.zero = true.
Proof.
  destruct (page_count w) as (n & Hrun & Hn & Hnan & Hge).
  exists n. split; [|now repeat split].
  unfold Home, mbind, M_bind. rewrite Hrun. cbn [fst snd GetV Get].
  rewrite createSafeURL_run. reflexivity.
Qed.


Lemma same_number_eq x y : same_number x y = true -> x = y.
Proof.
  destruct x as [a|a| |a m e], y as [b|b| |b m' e']; simpl; try discriminate.
  - now intros ->%Bool.eqb_prop.
  - now intros ->%Bool.eqb_prop.
  - reflexivity.
  - intros [[->%Bool.eqb_prop ->%Pos.eqb_eq]%andb_prop ->%Z.eqb_eq]%andb_prop.
    reflexivity.
Qed.

Lemma counts_from_upto :
  forallb counts_from (map Z.of_nat (seq 0 1001)) = true.
Proof. vm_compute. reflexivity. Qed.

Lemma counts_from_spec z :
  0 <= z <= 1000 ->
  coerced_value count_def (Num.Z_digits z) = Some (Num.of_Z z)
  /\ ToString (JSON_stringify (VNumber (Num.add (Num.of_Z z) (Num.of_Z 1))))
     = Num.Z_digits (z + 1).
Proof.
  intros Hz. pose proof counts_from_upto as H.
  rewrite forallb_forall in H. specialize (H z).
  assert (In z (map Z.of_nat (seq 0 1001))) as Hin.
  { apply in_map_iff. exists (Z.to_nat z). split; [lia|]. apply in_seq. lia. }
  apply H in Hin. unfold counts_from in Hin.
  apply andb_prop in Hin as [H1 H2]. split.
  - destruct (coerced_value count_def (Num.Z_digits z)) as [m|]; [|discriminate].
    now rewrite (same_number_eq _ _ H1).
  - now apply String.eqb_eq.
Qed.


(** X11: the page renders for every query, whatever is in it: [Home]
    returns, the count it shows is a number that is not [NaN] and not
    below 0, and its link points to the current pathname with the current
    query in which [count] occurs once, holds the JSON text of the shown
    count plus one, and every other tuple is as it was.  The render leaves
    the host's pathname and query alone. *)
Theorem Home_always_renders router w :
  exists n r w' updated,
    Home router w = (Return r, w')
    /\ shown_count r = VNumber n
    /\ Num.isNaN n = false
    /\ Num.ge n Num.zero = true
    /\ href r = current_pathname w +:+ "?" +:+ URLSearchParams.toString updated
    /\ URLSearchParams.count updated "count" = 1%nat
    /\ URLSearchParams.get updated "count"
       = Some (ToString (JSON_stringify (VNumber (Num.add n (Num.of_Z 1)))))
    /\ untouched ["count"] updated = untouched ["count"] (current_searchParams w)
    /\ current_pathname w' = current_pathname w
    /\ current_searchParams w' = current_searchParams w.
Proof.
  destruct (Home_run router w) as (n & Hrun & _ & Hnan & Hge).
  eexists n, _, _, (incremented_query (current_searchParams w) n).
  split; [exact Hrun|]. cbn [shown_count href].
  repeat split; try assumption.
  - apply count_set_same.
  - unfold incremented_query. rewrite get_set_same. reflexivity.
  - apply (untouched_set_all
             (fun _ => ToString (JSON_stringify
                                   (VNumber (Num.add n (Num.of_Z 1)))))
             ["count"] ["count"]).
    now intros k.
Qed.

(** X12: the button and the link of one render lead to the same URL: run
    in any store in which the host's query is still the one of the render,
    the click handler passes [router.replace] exactly the link's [href],
    and calls nothing else of the router. *)
Theorem Home_click_follows_link router w r w2 :
  fst (Home router w) = Return r ->
  current_searchParams w2 = current_searchParams w ->
  exists w3,
    onClick r w2 = router (href r) w3
    /\ current_pathname w3 = current_pathname w2
    /\ current_searchParams w3 = current_searchParams w2.
Proof.
  destruct (Home_run router w) as (n & Hrun & _).
  rewrite Hrun. cbn [fst]. intros [= <-] Hsame. cbn [onClick href].
  unfold incrementCount, mbind, M_bind. rewrite createSafeURL_run.
  cbn [read].
  eexists. split; [rewrite Hsame; reflexivity|]. split; reflexivity.
Qed.

Lemma Home_click_follows_link_witness :
  exists w3,
    incrementCount (fun _ : string => (mret tt : M unit)) (VNumber (Num.of_Z 7))
      (createSafeURL "/" HostSearchParams)
      (render_world "/" [("count", "7"); ("tab", "a")])
    = (fun _ : string => (mret tt : M unit)) "/?count=8&tab=a" w3
    /\ current_pathname w3 = "/"
    /\ current_searchParams w3 = [("count", "7"); ("tab", "a")].
Proof.
  apply (Home_click_follows_link (fun _ : string => (mret tt : M unit))
           (render_world "/" [("count", "7"); ("tab", "a")])
           {| shown_count := VNumber (Num.of_Z 7);
              onClick := incrementCount (fun _ : string => (mret tt : M unit)) (VNumber (Num.of_Z 7))
                           (createSafeURL "/" HostSearchParams);
              href := "/?count=8&tab=a" |}
           (render_world "/" [("count", "7"); ("tab", "a")])).
  - destruct (Home_run (fun _ : string => (mret tt : M unit))
                (render_world "/" [("count", "7"); ("tab", "a")]))
      as (n & Hrun & Hn & _).
    rewrite Hrun. cbn [fst]. vm_compute in Hn. injection Hn as ->.
    vm_compute. reflexivity.
  - reflexivity.
Defined.

(** X13: the page counts.  When the query holds the decimal text of an
    integer [z] from 0 to 999 for [count], the render shows [z], and the
    render that follows a navigation to its link shows [z + 1], whatever
    else the query holds. *)
Theorem Home_counts router w z :
  0 <= z < 1000 ->
  raw_value (current_searchParams w) "count" = Some (Num.Z_digits z) ->
  exists r query,
    fst (Home router w) = Return r
    /\ shown_count r = VNumber (Num.of_Z z)
    /\ href r = current_pathname w +:+ "?" +:+ query
    /\ forall w',
         current_searchParams w' = URLSearchParams.parse query ->
         exists r',
           fst (Home router w') = Return r'
           /\ shown_count r' = VNumber (Num.of_Z (z + 1)).
Proof.
  intros Hz Hraw.
  destruct (Home_run router w) as (n & Hrun & Hn & _).
  rewrite Hraw, accept_or_fallback_number in Hn.
  destruct (counts_from_spec z ltac:(lia)) as [Hread Hwrite].
  rewrite Hread in Hn. injection Hn as ->.
  eexists _, _. rewrite Hrun. cbn [fst shown_count href].
  split; [reflexivity|]. split; [reflexivity|]. split; [reflexivity|].
  intros w' Hnext. rewrite QueryString.parse_toString in Hnext.
  destruct (Home_run router w') as (n' & Hrun' & Hn' & _).
  rewrite Hnext, raw_value_last in Hn'.
  unfold incremented_query in Hn'.
  assert (last_occurrence
            (URLSearchParams.set (current_searchParams w) "count"
               (ToString (JSON_stringify
                            (VNumber (Num.add (Num.of_Z z) (Num.of_Z 1))))))
            "count"
          = Some (Num.Z_digits (z + 1))) as Hlast.
  { rewrite <- Hwrite.
    apply (CreateURLProps.updatedParams_lookup (current_searchParams w)
             [("count", VNumber (Num.add (Num.of_Z z) (Num.of_Z 1)))] "count"). }
  rewrite Hlast, accept_or_fallback_number in Hn'.
  destruct (counts_from_spec (z + 1) ltac:(lia)) as [Hread' _].
  rewrite Hread' in Hn'. injection Hn' as ->.
  eexists. rewrite Hrun'. cbn [fst shown_count]. split; reflexivity.
Qed.

Lemma Home_counts_witness :
  exists r query,
    fst (Home (fun _ : string => (mret tt : M unit))
           (render_world "/" [("tab", "a"); ("count", "41")]))
    = Return r
    /\ shown_count r = VNumber (Num.of_Z 41)
    /\ href r
       = current_pathname (render_world "/" [("tab", "a"); ("count", "41")])
         +:+ "?" +:+ query
    /\ forall w',
         current_searchParams w' = URLSearchParams.parse query ->
         exists r',
           fst (Home (fun _ : string => (mret tt : M unit)) w') = Return r'
           /\ shown_count r' = VNumber (Num.of_Z (41 + 1)).
Proof.
  apply (Home_counts (fun _ : string => (mret tt : M unit))
           (render_world "/" [("tab", "a"); ("count", "41")]) 41).
  - lia.
  - reflexivity.
Defined.

End HomeProps.
